(** * NativeAudioWeb: the web implementation of the native-audio plugin

    A shallow embedding of [src/web.ts].  The plugin keeps one registry,
    [AUDIO_ASSET_BY_ASSET_ID], from asset identifiers to audio assets; every
    operation of the plugin looks an asset up in it and drives the
    [HTMLAudioElement] the asset wraps.

    The promise an [async] method returns is modelled by its settlement: the
    value it resolves with, or the value it rejects with (what the body
    throws).  Each method runs to completion before the next call or media
    event is processed. *)

From Stdlib Require Import String Ascii QArith Qcanon.
From stdpp Require Import base option countable strings list gmap fin_maps.

Local Open Scope string_scope.

(** ** JavaScript values *)

(** A JavaScript number.  The plugin never computes with numbers: it stores
    them, compares them with bounds and tests them for truthiness, NaN and
    finiteness.  A finite double is therefore represented by the rational it
    denotes (both zeros by [0]). *)
Inductive Number : Type :=
  | NaN
  | Infinity (negative : bool)
  | Finite (q : Qc).

(** The primitive values that can arrive in an option object. *)
Inductive Value : Type :=
  | VUndefined
  | VNull
  | VBoolean (b : bool)
  | VNumber (n : Number)
  | VString (s : string).

Global Instance Number_eq_dec : EqDecision Number.
Proof. solve_decision. Defined.

Global Instance Value_eq_dec : EqDecision Value.
Proof. solve_decision. Defined.

Global Instance Number_countable : Countable Number.
Proof.
  refine (inj_countable'
    (fun n => match n with
              | NaN => inl tt
              | Infinity b => inr (inl b)
              | Finite q => inr (inr q)
              end)
    (fun x => match x with
              | inl _ => NaN
              | inr (inl b) => Infinity b
              | inr (inr q) => Finite q
              end) _).
  intros []; reflexivity.
Defined.

Global Instance Value_countable : Countable Value.
Proof.
  refine (inj_countable'
    (fun v => match v with
              | VUndefined => inl (inl tt)
              | VNull => inl (inr tt)
              | VBoolean b => inr (inl b)
              | VNumber n => inr (inr (inl n))
              | VString s => inr (inr (inr s))
              end)
    (fun x => match x with
              | inl (inl _) => VUndefined
              | inl (inr _) => VNull
              | inr (inl b) => VBoolean b
              | inr (inr (inl n)) => VNumber n
              | inr (inr (inr s)) => VString s
              end) _).
  intros []; reflexivity.
Defined.

(** [typeof v] *)
Definition typeof (v : Value) : string :=
  match v with
  | VUndefined => "undefined"
  | VNull => "object"
  | VBoolean _ => "boolean"
  | VNumber _ => "number"
  | VString _ => "string"
  end.

(** [Number.isNaN] and [Number.isFinite] *)
Definition isNaN (n : Number) : bool :=
  match n with NaN => true | _ => false end.

Definition isFinite (n : Number) : bool :=
  match n with Finite _ => true | _ => false end.

(** ToBoolean on numbers and on values: [0], [NaN], the empty string,
    [undefined], [null] and [false] are falsy. *)
Definition number_truthy (n : Number) : bool :=
  match n with
  | NaN => false
  | Infinity _ => true
  | Finite q => negb (Qeq_bool q 0)
  end.

Definition truthy (v : Value) : bool :=
  match v with
  | VUndefined | VNull => false
  | VBoolean b => b
  | VNumber n => number_truthy n
  | VString s => negb (String.eqb s "")
  end.

(** [v?.length]: the length of a string, [undefined] for the other
    primitives. *)
Definition length_of (v : Value) : Value :=
  match v with
  | VString s => VNumber (Finite (Q2Qc (inject_Z (Z.of_nat (String.length s)))))
  | _ => VUndefined
  end.

(** ** What the plugin throws *)

(** One constructor for each [throw] of [web.ts], with the string thrown:
    - [AssetIdNotString]: 'assetId must be a string'
    - [NoAssetIdProvided]: 'no assetId provided'
    - [AssetNotFound id]: 'no asset for assetId "<id>" available. Call preload first!'
    - [DuplicateAsset]: 'AssetId already exists. Unload first if like to change!'
    - [MissingAssetPath]: 'no assetPath provided'
    - [NoDurationYet]: 'no duration available'
    - [DurationUnavailable]: 'duration not available => media resource is streaming'
    - [NoVolumeProvided]: 'no volume provided'
    - [NoRateProvided]: 'no rate provided'
    - [UnsupportedOperation json]: 'configure is not supported for web: <json>'
    and two for the exceptions the audio element itself raises when one of
    its attributes is assigned: a [TypeError] for a value that is not a
    finite number, an [IndexSizeError] for a volume outside its range. *)
Inductive Thrown : Type :=
  | AssetIdNotString
  | NoAssetIdProvided
  | AssetNotFound (assetId : Value)
  | DuplicateAsset
  | MissingAssetPath
  | NoDurationYet
  | DurationUnavailable
  | NoVolumeProvided
  | NoRateProvided
  | UnsupportedOperation (json : string)
  | TypeError
  | IndexSizeError.

(** How a call ends: it returns a value or throws. *)
Inductive Outcome (A : Type) : Type :=
  | Return (a : A)
  | Throw (e : Thrown).
Arguments Return {A} a.
Arguments Throw {A} e.

Global Instance Outcome_ret : MRet Outcome := fun A a => Return a.
Global Instance Outcome_bind : MBind Outcome := fun A B f m =>
  match m with
  | Return a => f a
  | Throw e => Throw e
  end.

(** ** Bounds of the native implementations ([Constant.swift])

    The ranges of a volume and of a rate in the iOS implementation.  [web.ts]
    does not refer to them. *)

Definition MinVolume : Qc := 0.
Definition MaxVolume : Qc := 1.
Definition MinRate : Qc := Q2Qc (1 # 4).
Definition MaxRate : Qc := Q2Qc 4.

Definition within (lo hi q : Qc) : bool := Qle_bool lo q && Qle_bool q hi.

(** ** The audio element

    [HTMLAudioElement] is the browser's object, not code of the plugin.  It
    is modelled by the attributes the plugin reads and assigns, the ['ended']
    listeners the plugin adds to it, and the exceptions its setters raise
    (they reject the plugin's promise).  What the media engine does with the
    attributes (loading, decoding, moving the position while playing) shows
    only through the media events of [Module Media] below. *)
Module Audio.

(** An ['ended'] listener.  The plugin adds only one kind of callback,
    [() => this.onEnded(assetId)], so a listener is the identifier its
    closure captured and its [once] option. *)
Record Listener : Type := mkListener {
  once : bool;
  captured : Value
}.

Record HTMLAudioElement : Type := mkAudio {
  src : string;
  autoplay : bool;
  loop : bool;
  preload : string;
  volume : Qc;
  playbackRate : Qc;
  currentTime : Qc;
  duration : Number;
  paused : bool;
  ended_listeners : list Listener
}.

(** [new Audio(src)]: a paused element at position 0 with the default
    volume and rate, whose duration is not known yet. *)
Definition new (url : string) : HTMLAudioElement :=
  {| src := url; autoplay := false; loop := false; preload := "auto";
     volume := 1; playbackRate := 1; currentTime := 0;
     duration := NaN; paused := true; ended_listeners := [] |}.

(** An attribute of IDL type [double] accepts finite numbers only. *)
Definition to_double (n : Number) : Outcome Qc :=
  match n with
  | Finite q => Return q
  | _ => Throw TypeError
  end.

Definition set_autoplay (b : bool) (a : HTMLAudioElement) : HTMLAudioElement :=
  {| src := src a; autoplay := b; loop := loop a; preload := preload a;
     volume := volume a; playbackRate := playbackRate a;
     currentTime := currentTime a; duration := duration a;
     paused := paused a; ended_listeners := ended_listeners a |}.

Definition set_loop (b : bool) (a : HTMLAudioElement) : HTMLAudioElement :=
  {| src := src a; autoplay := autoplay a; loop := b; preload := preload a;
     volume := volume a; playbackRate := playbackRate a;
     currentTime := currentTime a; duration := duration a;
     paused := paused a; ended_listeners := ended_listeners a |}.

Definition set_preload (s : string) (a : HTMLAudioElement) : HTMLAudioElement :=
  {| src := src a; autoplay := autoplay a; loop := loop a; preload := s;
     volume := volume a; playbackRate := playbackRate a;
     currentTime := currentTime a; duration := duration a;
     paused := paused a; ended_listeners := ended_listeners a |}.

Definition with_volume (q : Qc) (a : HTMLAudioElement) : HTMLAudioElement :=
  {| src := src a; autoplay := autoplay a; loop := loop a; preload := preload a;
     volume := q; playbackRate := playbackRate a;
     currentTime := currentTime a; duration := duration a;
     paused := paused a; ended_listeners := ended_listeners a |}.

Definition with_playbackRate (q : Qc) (a : HTMLAudioElement) : HTMLAudioElement :=
  {| src := src a; autoplay := autoplay a; loop := loop a; preload := preload a;
     volume := volume a; playbackRate := q;
     currentTime := currentTime a; duration := duration a;
     paused := paused a; ended_listeners := ended_listeners a |}.

Definition with_currentTime (q : Qc) (a : HTMLAudioElement) : HTMLAudioElement :=
  {| src := src a; autoplay := autoplay a; loop := loop a; preload := preload a;
     volume := volume a; playbackRate := playbackRate a;
     currentTime := q; duration := duration a;
     paused := paused a; ended_listeners := ended_listeners a |}.

Definition with_duration (d : Number) (a : HTMLAudioElement) : HTMLAudioElement :=
  {| src := src a; autoplay := autoplay a; loop := loop a; preload := preload a;
     volume := volume a; playbackRate := playbackRate a;
     currentTime := currentTime a; duration := d;
     paused := paused a; ended_listeners := ended_listeners a |}.

Definition with_paused (b : bool) (a : HTMLAudioElement) : HTMLAudioElement :=
  {| src := src a; autoplay := autoplay a; loop := loop a; preload := preload a;
     volume := volume a; playbackRate := playbackRate a;
     currentTime := currentTime a; duration := duration a;
     paused := b; ended_listeners := ended_listeners a |}.

Definition with_listeners (ls : list Listener) (a : HTMLAudioElement) : HTMLAudioElement :=
  {| src := src a; autoplay := autoplay a; loop := loop a; preload := preload a;
     volume := volume a; playbackRate := playbackRate a;
     currentTime := currentTime a; duration := duration a;
     paused := paused a; ended_listeners := ls |}.

(** [audio.volume = n]: the element throws an [IndexSizeError] outside
    [0, 1] and keeps its volume. *)
Definition set_volume (n : Number) (a : HTMLAudioElement) : Outcome HTMLAudioElement :=
  q ← to_double n;
  if within 0 1 q then Return (with_volume q a)
  else Throw IndexSizeError.

(** [audio.playbackRate = n]: a number that is not finite is refused by the
    conversion to [double]; a finite rate becomes the element's rate.  Which
    rates an element supports is left to the user agent, which may refuse
    the others; that set is not part of this model, and the statements on
    setRate are therefore made on the outcome of this assignment. *)
Definition set_playbackRate (n : Number) (a : HTMLAudioElement) : Outcome HTMLAudioElement :=
  q ← to_double n;
  Return (with_playbackRate q a).

(** [audio.currentTime = n]: a number that is not finite is refused by the
    conversion to [double]; a finite one is recorded as the position the
    script asked for.  An element with a media brings a position outside the
    media back into it; the model keeps what was assigned, so only the
    positions within the media (and 0) are the element's own. *)
Definition set_currentTime (n : Number) (a : HTMLAudioElement) : Outcome HTMLAudioElement :=
  q ← to_double n;
  Return (with_currentTime q a).

(** [audio.pause()] and [audio.play()].  [play] is the call on the path
    where the element starts: the element is no longer paused.  That a user
    agent rejects the promise instead (no permission, no playable source),
    and that an element whose playback had ended starts again from the
    beginning, are not modelled. *)
Definition pause (a : HTMLAudioElement) : HTMLAudioElement := with_paused true a.
Definition play (a : HTMLAudioElement) : HTMLAudioElement := with_paused false a.

(** [audio.addEventListener('ended', () => this.onEnded(assetId), {once: true})]:
    every call passes a new function object, so the listener is added
    after the ones already there. *)
Definition addEventListener_ended (l : Listener) (a : HTMLAudioElement) : HTMLAudioElement :=
  with_listeners (ended_listeners a ++ [l]) a.

End Audio.

(** Modelled from the spec: the class [AudioAsset] of [audio-asset.ts], which
    is not among the sources.  An audio asset owns its backend handle;
    [web.ts] constructs it with [new AudioAsset(audio)] and only ever reads
    its [audio]. *)
Record AudioAsset : Type := mkAudioAsset {
  audio : Audio.HTMLAudioElement
}.

(** ** The plugin *)

(** Modelled from the spec: the interface [PreloadOptions] of
    [definitions.ts], which is not among the sources.  The inputs of preload
    are id, assetPath, isUrl? and volume?, the fields [web.ts] reads.
    [assetId] is kept as an arbitrary value because the plugin itself tests
    its type; an absent field is [None]. *)
Record PreloadOptions : Type := mkPreloadOptions {
  assetId : Value;
  assetPath : option string;
  isUrl : option bool;
  volume : option Number
}.

(** The state of the plugin: the static registry, and the notifications
    handed to [notifyListeners] so far, oldest first, each with its event
    name and the [assetId] of its payload. *)
Record Plugin : Type := mkPlugin {
  AUDIO_ASSET_BY_ASSET_ID : gmap Value AudioAsset;
  notified : list (string * Value)
}.

Definition initial : Plugin :=
  {| AUDIO_ASSET_BY_ASSET_ID := ∅; notified := [] |}.

(** A method body: it may change the plugin and returns or throws.  What it
    changed before throwing stays changed. *)
Definition M (A : Type) : Type := Plugin → Outcome A * Plugin.

Global Instance M_ret : MRet M := fun A a p => (Return a, p).
Global Instance M_bind : MBind M := fun A B f m p =>
  match m p with
  | (Return a, p') => f a p'
  | (Throw e, p') => (Throw e, p')
  end.

Definition throw {A : Type} (e : Thrown) : M A := fun p => (Throw e, p).

(** Lifts a check that does not touch the plugin. *)
Definition lift {A : Type} (o : Outcome A) : M A := fun p => (o, p).

Definition registry : M (gmap Value AudioAsset) :=
  fun p => (Return (AUDIO_ASSET_BY_ASSET_ID p), p).

Definition set_registry (m : gmap Value AudioAsset) : M unit :=
  fun p => (Return tt, {| AUDIO_ASSET_BY_ASSET_ID := m; notified := notified p |}).

(** [this.notifyListeners(name, { assetId })] *)
Definition notifyListeners (name : string) (id : Value) : M unit :=
  fun p => (Return tt, {| AUDIO_ASSET_BY_ASSET_ID := AUDIO_ASSET_BY_ASSET_ID p;
                          notified := notified p ++ [(name, id)] |}).

(** The plugin with the element registered under [id] replaced by [a]. *)
Definition store (id : Value) (a : Audio.HTMLAudioElement) (p : Plugin) : Plugin :=
  {| AUDIO_ASSET_BY_ASSET_ID := <[id := {| audio := a |}]> (AUDIO_ASSET_BY_ASSET_ID p);
     notified := notified p |}.

(** A statement on the local [audio] of a method.  [audio] refers to the
    element of the asset the method has just looked up under [id]; the
    object is shared with the registry, so the statement changes the
    registered element.  When the setter throws the element is unchanged.
    (A method makes such a statement only after its lookup of [id] has
    succeeded; on an identifier that is not registered there is no element
    to change.) *)
Definition on_audio (id : Value)
    (f : Audio.HTMLAudioElement → Outcome Audio.HTMLAudioElement) : M unit :=
  fun p =>
    match AUDIO_ASSET_BY_ASSET_ID p !! id with
    | None => (Return tt, p)
    | Some asset =>
        match f (audio asset) with
        | Return a' => (Return tt, store id a' p)
        | Throw e => (Throw e, p)
        end
    end.

(** [if (options.volume) { audio.volume = options.volume }] *)
Definition apply_volume (v : option Number) (a : Audio.HTMLAudioElement)
    : Outcome Audio.HTMLAudioElement :=
  match v with
  | Some n => if number_truthy n then Audio.set_volume n a else Return a
  | None => Return a
  end.

Module NativeAudioWeb.

Definition FILE_LOCATION : string := "".

(** [new RegExp('^/?' + FILE_LOCATION).test(path)]: [path], after an
    optional leading slash, starts with [FILE_LOCATION]. *)
Definition test_FILE_LOCATION (path : string) : bool :=
  String.prefix FILE_LOCATION path
  || match path with
     | String "/" rest => String.prefix FILE_LOCATION rest
     | _ => false
     end.

Definition startsWith_slash (path : string) : bool :=
  match path with
  | String "/" _ => true
  | _ => false
  end.

Definition checkAssetId (assetId : Value) : Outcome unit :=
  if negb (String.eqb (typeof assetId) "string") then Throw AssetIdNotString
  else if negb (truthy (length_of assetId)) then Throw NoAssetIdProvided
  else Return tt.

Definition getAudioAsset (assetId : Value) : M AudioAsset :=
  lift (checkAssetId assetId);;
  assets ← registry;
  match assets !! assetId with
  | None => throw (AssetNotFound assetId)
  | Some asset => mret asset
  end.

Definition resume (assetId : Value) : M unit :=
  asset ← getAudioAsset assetId;
  if Audio.paused (audio asset)
  then on_audio assetId (fun a => Return (Audio.play a))
  else mret tt.

Definition pause (assetId : Value) : M unit :=
  getAudioAsset assetId;;
  on_audio assetId (fun a => Return (Audio.pause a)).

Definition setCurrentTime (assetId : Value) (time : Number) : M unit :=
  getAudioAsset assetId;;
  on_audio assetId (Audio.set_currentTime time).

Definition getCurrentTime (assetId : Value) : M Qc :=
  asset ← getAudioAsset assetId;
  mret (Audio.currentTime (audio asset)).

Definition getDuration (assetId : Value) : M Number :=
  asset ← getAudioAsset assetId;
  if isNaN (Audio.duration (audio asset)) then throw NoDurationYet
  else if negb (isFinite (Audio.duration (audio asset))) then throw DurationUnavailable
  else mret (Audio.duration (audio asset)).

Definition configure (json : string) : M unit :=
  throw (UnsupportedOperation json).

(** The [try]/[catch] turns every throw of the lookup into [found: false];
    an asset object is truthy. *)
Definition isPreloaded (options : PreloadOptions) : M bool :=
  fun p =>
    match getAudioAsset (assetId options) p with
    | (Return _, p') => (Return true, p')
    | (Throw _, p') => (Return false, p')
    end.

Definition preload (options : PreloadOptions) : M unit :=
  assets ← registry;
  if bool_decide (is_Some (assets !! assetId options)) then throw DuplicateAsset
  else
    match assetPath options with
    | None => throw MissingAssetPath
    | Some path =>
        if negb (truthy (length_of (VString path))) then throw MissingAssetPath
        else
          let path' :=
            if negb (default false (isUrl options)) && negb (test_FILE_LOCATION path)
            then FILE_LOCATION +:+ (if startsWith_slash path then "" else "/") +:+ path
            else path in
          let audio0 :=
            Audio.set_preload "auto"
              (Audio.set_loop false (Audio.set_autoplay false (Audio.new path'))) in
          audio1 ← lift (apply_volume (volume options) audio0);
          assets' ← registry;
          set_registry (<[assetId options := {| audio := audio1 |}]> assets')
    end.

Definition onEnded (assetId : Value) : M unit :=
  notifyListeners "complete" assetId.

Definition stop (assetId : Value) : M unit :=
  getAudioAsset assetId;;
  on_audio assetId (fun a => Return (Audio.pause a));;
  on_audio assetId (fun a => Return (Audio.set_loop false a));;
  on_audio assetId (Audio.set_currentTime (Finite 0)).

Definition play (assetId : Value) (time : option Number) : M unit :=
  let time := default (Finite 0) time in
  getAudioAsset assetId;;
  stop assetId;;
  on_audio assetId (fun a => Return (Audio.set_loop false a));;
  on_audio assetId (Audio.set_currentTime time);;
  on_audio assetId (fun a =>
    Return (Audio.addEventListener_ended
              {| Audio.once := true; Audio.captured := assetId |} a));;
  on_audio assetId (fun a => Return (Audio.play a)).

Definition loop (assetId : Value) : M unit :=
  getAudioAsset assetId;;
  stop assetId;;
  on_audio assetId (fun a => Return (Audio.set_loop true a));;
  on_audio assetId (fun a => Return (Audio.play a)).

Definition unload (assetId : Value) : M unit :=
  stop assetId;;
  assets ← registry;
  set_registry (delete assetId assets).

(** The [match] is the test [typeof options?.volume !== 'number']. *)
Definition setVolume (assetId : Value) (volume : Value) : M unit :=
  match volume with
  | VNumber n =>
      getAudioAsset assetId;;
      on_audio assetId (Audio.set_volume n)
  | _ => throw NoVolumeProvided
  end.

(** The [match] is the test [typeof options?.rate !== 'number']. *)
Definition setRate (assetId : Value) (rate : Value) : M unit :=
  match rate with
  | VNumber n =>
      getAudioAsset assetId;;
      on_audio assetId (Audio.set_playbackRate n)
  | _ => throw NoRateProvided
  end.

Definition isPlaying (assetId : Value) : M bool :=
  asset ← getAudioAsset assetId;
  mret (negb (Audio.paused (audio asset))).

Definition clearCache : M unit := mret tt.

End NativeAudioWeb.

(** ** Media events

    What the browser does to a registered element between two calls of the
    plugin.  The element of an unloaded asset is paused and no longer
    referenced, so it raises no further event. *)
Module Media.

(** Runs the callbacks of the listeners, in the order they were added. *)
Fixpoint dispatch (ls : list Audio.Listener) : M unit :=
  match ls with
  | [] => mret tt
  | l :: ls' => NativeAudioWeb.onEnded (Audio.captured l);; dispatch ls'
  end.

(** Playback reached the end of the media.  That happens only while the
    element plays with [loop] off (a looping element seeks back to the
    start instead).  The element becomes paused, and ['ended'] is fired at
    it: every listener runs, and the [once] listeners are removed. *)
Definition ended (id : Value) : M unit :=
  assets ← registry;
  match assets !! id with
  | None => mret tt
  | Some asset =>
      if Audio.paused (audio asset) || Audio.loop (audio asset) then mret tt
      else
        on_audio id (fun a =>
          Return (Audio.with_listeners
                    (filter (fun l => Audio.once l = false) (Audio.ended_listeners a))
                    (Audio.with_paused true a)));;
        dispatch (Audio.ended_listeners (audio asset))
  end.

(** The duration of the media became known or changed. *)
Definition durationchange (id : Value) (d : Number) : M unit :=
  on_audio id (fun a => Return (Audio.with_duration d a)).

(** The playback position moved while the element plays. *)
Definition timeupdate (id : Value) (t : Qc) : M unit :=
  on_audio id (fun a =>
    Return (if Audio.paused a then a else Audio.with_currentTime t a)).

End Media.

(** ** Histories *)

(** A call of the plugin's interface, or a media event. *)
Inductive Call : Type :=
  | Preload (options : PreloadOptions)
  | IsPreloaded (options : PreloadOptions)
  | Play (assetId : Value) (time : option Number)
  | Loop (assetId : Value)
  | Pause (assetId : Value)
  | Resume (assetId : Value)
  | Stop (assetId : Value)
  | Unload (assetId : Value)
  | SetCurrentTime (assetId : Value) (time : Number)
  | GetCurrentTime (assetId : Value)
  | GetDuration (assetId : Value)
  | SetVolume (assetId : Value) (volume : Value)
  | SetRate (assetId : Value) (rate : Value)
  | IsPlaying (assetId : Value)
  | ClearCache
  | Configure (json : string)
  | Ended (assetId : Value)
  | DurationChange (assetId : Value) (d : Number)
  | TimeUpdate (assetId : Value) (t : Qc).

(** The plugin after a call, whether it returned or threw. *)
Definition exec (c : Call) (p : Plugin) : Plugin :=
  match c with
  | Preload o => snd (NativeAudioWeb.preload o p)
  | IsPreloaded o => snd (NativeAudioWeb.isPreloaded o p)
  | Play id t => snd (NativeAudioWeb.play id t p)
  | Loop id => snd (NativeAudioWeb.loop id p)
  | Pause id => snd (NativeAudioWeb.pause id p)
  | Resume id => snd (NativeAudioWeb.resume id p)
  | Stop id => snd (NativeAudioWeb.stop id p)
  | Unload id => snd (NativeAudioWeb.unload id p)
  | SetCurrentTime id t => snd (NativeAudioWeb.setCurrentTime id t p)
  | GetCurrentTime id => snd (NativeAudioWeb.getCurrentTime id p)
  | GetDuration id => snd (NativeAudioWeb.getDuration id p)
  | SetVolume id v => snd (NativeAudioWeb.setVolume id v p)
  | SetRate id r => snd (NativeAudioWeb.setRate id r p)
  | IsPlaying id => snd (NativeAudioWeb.isPlaying id p)
  | ClearCache => snd (NativeAudioWeb.clearCache p)
  | Configure json => snd (NativeAudioWeb.configure json p)
  | Ended id => snd (Media.ended id p)
  | DurationChange id d => snd (Media.durationchange id d p)
  | TimeUpdate id t => snd (Media.timeupdate id t p)
  end.

Definition run (cs : list Call) (p : Plugin) : Plugin :=
  foldl (fun p c => exec c p) p cs.

(** The ['complete'] notifications for [id] among the notifications. *)
Definition completions (id : Value) (p : Plugin) : nat :=
  length (filter (fun n => n = ("complete", id)) (notified p)).

(** ** Identifiers *)

(** An asset identifier is a non-empty string (the specification's
    AssetIdentifier, "a non-empty text token"): exactly the values
    [checkAssetId] lets through, see [checkAssetId_identifier]. *)
Definition is_identifier (v : Value) : bool :=
  match v with
  | VString s => negb (String.eqb s "")
  | _ => false
  end.

(** [keeps_keys m]: running [m] leaves the set of registered identifiers as
    it was. *)
Definition keeps_keys {A : Type} (m : M A) : Prop :=
  ∀ p, dom (AUDIO_ASSET_BY_ASSET_ID (snd (m p))) = dom (AUDIO_ASSET_BY_ASSET_ID p).

(** ** The elements the operations leave behind *)

(** The element [stop] leaves behind. *)
Definition stopped (a : Audio.HTMLAudioElement) : Audio.HTMLAudioElement :=
  Audio.with_currentTime 0 (Audio.set_loop false (Audio.pause a)).

(** The listener [play(id)] adds. *)
Definition completion_listener (id : Value) : Audio.Listener :=
  {| Audio.once := true; Audio.captured := id |}.

(** The element [play] leaves behind when it is asked for position [t]. *)
Definition restarted (id : Value) (t : Qc) (a : Audio.HTMLAudioElement)
    : Audio.HTMLAudioElement :=
  Audio.play
    (Audio.addEventListener_ended (completion_listener id)
       (Audio.with_currentTime t (Audio.set_loop false (stopped a)))).

(** The element [preload] builds for a path, before the volume option is
    looked at. *)
Definition prepared (path : string) : Audio.HTMLAudioElement :=
  Audio.set_preload "auto"
    (Audio.set_loop false (Audio.set_autoplay false (Audio.new path))).

(** ** Relating the plugin before and after a call *)

(** [always R m]: whatever the plugin [p] it starts from and however it
    ends, running [m] leaves a plugin related to [p] by [R]. *)
Definition always (R : Plugin → Plugin → Prop) {A : Type} (m : M A) : Prop :=
  ∀ p, R p (snd (m p)).

(** The asset registered under [id], if any, is the same before and after. *)
Definition same_asset (id : Value) (p p' : Plugin) : Prop :=
  AUDIO_ASSET_BY_ASSET_ID p' !! id = AUDIO_ASSET_BY_ASSET_ID p !! id.

(** The notifications are the same before and after. *)
Definition same_notified (p p' : Plugin) : Prop :=
  notified p' = notified p.

(** An asset registered under [id] stays registered, with the same value of
    the attribute [proj] of its element. *)
Definition same_attribute {T : Type} (proj : Audio.HTMLAudioElement → T)
    (id : Value) (p p' : Plugin) : Prop :=
  ∀ asset, AUDIO_ASSET_BY_ASSET_ID p !! id = Some asset →
    ∃ asset', AUDIO_ASSET_BY_ASSET_ID p' !! id = Some asset' ∧
              proj (audio asset') = proj (audio asset).

(** The identifier a call is about. *)
Definition target (c : Call) : option Value :=
  match c with
  | Preload o | IsPreloaded o => Some (assetId o)
  | Play id _ | Loop id | Pause id | Resume id | Stop id | Unload id
  | SetCurrentTime id _ | GetCurrentTime id | GetDuration id
  | SetVolume id _ | SetRate id _ | IsPlaying id
  | Ended id | DurationChange id _ | TimeUpdate id _ => Some id
  | ClearCache | Configure _ => None
  end.

(** Whether a result is a throw. *)
Definition is_throw {A : Type} (o : Outcome A) : bool :=
  match o with
  | Throw _ => true
  | Return _ => false
  end.

(** Whether a call throws (a media event is not a call of a method and
    throws nothing). *)
Definition throws (c : Call) (p : Plugin) : bool :=
  match c with
  | Preload o => is_throw (fst (NativeAudioWeb.preload o p))
  | IsPreloaded o => is_throw (fst (NativeAudioWeb.isPreloaded o p))
  | Play id t => is_throw (fst (NativeAudioWeb.play id t p))
  | Loop id => is_throw (fst (NativeAudioWeb.loop id p))
  | Pause id => is_throw (fst (NativeAudioWeb.pause id p))
  | Resume id => is_throw (fst (NativeAudioWeb.resume id p))
  | Stop id => is_throw (fst (NativeAudioWeb.stop id p))
  | Unload id => is_throw (fst (NativeAudioWeb.unload id p))
  | SetCurrentTime id t => is_throw (fst (NativeAudioWeb.setCurrentTime id t p))
  | GetCurrentTime id => is_throw (fst (NativeAudioWeb.getCurrentTime id p))
  | GetDuration id => is_throw (fst (NativeAudioWeb.getDuration id p))
  | SetVolume id v => is_throw (fst (NativeAudioWeb.setVolume id v p))
  | SetRate id r => is_throw (fst (NativeAudioWeb.setRate id r p))
  | IsPlaying id => is_throw (fst (NativeAudioWeb.isPlaying id p))
  | ClearCache => is_throw (fst (NativeAudioWeb.clearCache p))
  | Configure json => is_throw (fst (NativeAudioWeb.configure json p))
  | Ended _ | DurationChange _ _ | TimeUpdate _ _ => false
  end.

(** The media events among the calls. *)
Definition is_media_event (c : Call) : bool :=
  match c with
  | Ended _ | DurationChange _ _ | TimeUpdate _ _ => true
  | _ => false
  end.

(** The calls of the methods that end in [return audio.play()]: the
    outcome of these is the outcome of the element's promise. *)
Definition starts_playback (c : Call) : bool :=
  match c with
  | Play _ _ | Loop _ | Resume _ => true
  | _ => false
  end.

(** Every ['ended'] listener of every registered element is a [once]
    listener whose callback notifies for the identifier the element is
    registered under. *)
Definition listeners_own (p : Plugin) : Prop :=
  ∀ id asset, AUDIO_ASSET_BY_ASSET_ID p !! id = Some asset →
    ∀ l, l ∈ Audio.ended_listeners (audio asset) →
      l = {| Audio.once := true; Audio.captured := id |}.

(** [listeners_own] is kept from [p] to [p']. *)
Definition own_kept (p p' : Plugin) : Prop :=
  listeners_own p → listeners_own p'.

(** [k] calls of play in a row, with the given times. *)
Definition plays (id : Value) (times : list (option Qc)) : list Call :=
  map (fun t => Play id (Finite <$> t)) times.

(** * The hook script [scripts/configure-dependencies.ts]

    [configureAndroid] rewrites [android/gradle.properties]: it drops what an
    earlier run generated and appends the section that tells the build
    whether to include the HLS dependency.  A JavaScript string is modelled
    as the list of its UTF-16 code units.  The function is modelled by the
    content it writes, as a function of the content it read ([None] when the
    file does not exist); a failure of the file system, which the script
    catches and logs, is not modelled. *)
Module ConfigureDependencies.

(** A string literal of the script (all of them are ASCII). *)
Definition lit (s : string) : list N :=
  map N_of_ascii (list_ascii_of_string s).

(** The line feed, ['\n']. *)
Definition LF : N := 10%N.

(** The code units [trim] removes: the white space and the line terminators
    of ECMAScript. *)
Definition is_whitespace (c : N) : bool :=
  bool_decide (c ∈ [9; 10; 11; 12; 13; 32; 160; 5760; 8232; 8233; 8239; 8287;
                    12288; 65279]%N)
  || ((8192 <=? c) && (c <=? 8202))%N.

Fixpoint trimStart (s : list N) : list N :=
  match s with
  | c :: s' => if is_whitespace c then trimStart s' else s
  | [] => []
  end.

(** [s.trim()] *)
Definition trim (s : list N) : list N :=
  rev (trimStart (rev (trimStart s))).

(** [s.startsWith(prefix)] *)
Fixpoint startsWith (prefix s : list N) : bool :=
  match prefix, s with
  | [], _ => true
  | c :: prefix', d :: s' => bool_decide (c = d) && startsWith prefix' s'
  | _ :: _, [] => false
  end.

(** [s.split('\n')] *)
Fixpoint split (s : list N) : list (list N) :=
  match s with
  | [] => [[]]
  | c :: s' =>
      if bool_decide (c = LF) then [] :: split s'
      else match split s' with
           | line :: lines => (c :: line) :: lines
           | [] => [[c]]
           end
  end.

(** [lines.join('\n')] *)
Fixpoint join (lines : list (list N)) : list N :=
  match lines with
  | [] => []
  | [line] => line
  | line :: lines' => (line ++ LF :: join lines')%list
  end.

(** The test that makes the loop skip a line: a NativeAudio property or
    comment. *)
Definition is_NativeAudio_line (line : list N) : bool :=
  startsWith (lit "# NativeAudio") (trim line)
  || startsWith (lit "nativeAudio.") (trim line)
  || bool_decide (trim line = lit "# Generated by NativeAudio hook script").

(** [line.trim() === ''] *)
Definition is_empty_line (line : list N) : bool :=
  bool_decide (trim line = []).

(** The variables of the loop over the lines. *)
Record Loop : Type := mkLoop {
  filteredLines : list (list N);
  inNativeAudioSection : bool;
  lastWasEmpty : bool
}.

Definition loop_start : Loop :=
  {| filteredLines := []; inNativeAudioSection := false; lastWasEmpty := false |}.

(** The body of the loop, for one line. *)
Definition loop_body (st : Loop) (line : list N) : Loop :=
  if is_NativeAudio_line line then
    {| filteredLines := filteredLines st; inNativeAudioSection := true;
       lastWasEmpty := lastWasEmpty st |}
  else
    let inSection :=
      if inNativeAudioSection st && negb (is_empty_line line) then false
      else inNativeAudioSection st in
    if negb inSection then
      if is_empty_line line then
        if negb (lastWasEmpty st) then
          {| filteredLines := filteredLines st ++ [line];
             inNativeAudioSection := inSection; lastWasEmpty := true |}
        else
          {| filteredLines := filteredLines st; inNativeAudioSection := inSection;
             lastWasEmpty := lastWasEmpty st |}
      else
        {| filteredLines := filteredLines st ++ [line];
           inNativeAudioSection := inSection; lastWasEmpty := false |}
    else
      {| filteredLines := filteredLines st; inNativeAudioSection := inSection;
         lastWasEmpty := lastWasEmpty st |}.

Definition loop (lines : list (list N)) : Loop :=
  fold_left loop_body lines loop_start.

Record NativeAudioConfig : Type := mkConfig {
  hls : bool
}.

(** The section the script generates. *)
Definition nativeAudioProperties (config : NativeAudioConfig) : list (list N) :=
  [ lit "";
    lit "# NativeAudio Optional Dependencies (auto-generated)";
    lit "# Generated by NativeAudio hook script";
    (lit "nativeAudio.hls.include=" ++ lit (if hls config then "true" else "false"))%list ].

(** The content [configureAndroid] writes to [gradle.properties], given the
    content of the file when it exists. *)
Definition configureAndroid (config : NativeAudioConfig) (file : option (list N))
    : list N :=
  let existingContent := default [] file in
  let lines := split existingContent in
  (join (filteredLines (loop lines)) ++ [LF]
   ++ join (nativeAudioProperties config) ++ [LF])%list.

(** A line of the user: not empty and not a NativeAudio line. *)
Definition is_user_line (line : list N) : bool :=
  negb (is_NativeAudio_line line) && negb (is_empty_line line).

End ConfigureDependencies.

(** ** Sample data *)

Definition asset_a : PreloadOptions :=
  {| assetId := VString "a"; assetPath := Some "x.mp3"; isUrl := None; volume := None |}.

(** The plugin after [preload({assetId: 'a', assetPath: 'x.mp3'})]. *)
Definition loaded_a : Plugin := snd (NativeAudioWeb.preload asset_a initial).

Definition asset_empty : PreloadOptions :=
  {| assetId := VString ""; assetPath := Some "x.mp3"; isUrl := None; volume := None |}.

(** The plugin after [preload({assetId: '', assetPath: 'x.mp3'})]. *)
Definition loaded_empty : Plugin := snd (NativeAudioWeb.preload asset_empty initial).

(** The plugin after [preload] of ['a'] and then [loop('a')]. *)
Definition looping_a : Plugin := run [Loop (VString "a")] loaded_a.

(** The plugin after [preload] of ['a'], once the media has told its
    duration of 12 seconds. *)
Definition measured_a : Plugin :=
  run [DurationChange (VString "a") (Finite (Q2Qc 12))] loaded_a.

Definition asset_a_muted : PreloadOptions :=
  {| assetId := VString "a"; assetPath := Some "x.mp3"; isUrl := None;
     volume := Some (Finite 0) |}.

Definition asset_b : PreloadOptions :=
  {| assetId := VString "b"; assetPath := Some "y.mp3"; isUrl := Some true;
     volume := Some (Finite (Q2Qc (1 # 2))) |}.

(** The plugin after [preload] of ['a'] and of ['b'], ['a'] playing. *)
Definition loaded_two : Plugin :=
  run [Preload asset_b; Play (VString "a") None] loaded_a.

Global Instance Listener_eq_dec : EqDecision Audio.Listener.
Proof. solve_decision. Defined.

Global Instance PreloadOptions_eq_dec : EqDecision PreloadOptions.
Proof. solve_decision. Defined.

Global Instance Call_eq_dec : EqDecision Call.
Proof. solve_decision. Defined.

(** * Properties *)

(** ** Numbers and identifiers *)

Lemma Qeq_bool_Qred (x y : Q) : Qeq_bool (Qred x) y = Qeq_bool x y.
Proof.
  destruct (Qeq_bool x y) eqn:E.
  - apply Qeq_bool_iff. rewrite Qred_correct. by apply Qeq_bool_iff.
  - destruct (Qeq_bool (Qred x) y) eqn:E'; [|done].
    apply Qeq_bool_iff in E'. rewrite Qred_correct in E'.
    by apply Qeq_bool_neq in E.
Qed.

Lemma truthy_length (s : string) :
  truthy (length_of (VString s)) = negb (String.eqb s "").
Proof.
  destruct s as [|c s]; [reflexivity|].
  cbn [length_of truthy number_truthy String.length String.eqb negb].
  apply negb_true_iff. unfold Q2Qc. cbn [this].
  rewrite Qeq_bool_Qred. reflexivity.
Qed.

(** [checkAssetId] by cases on the value. *)
Lemma checkAssetId_cases (v : Value) :
  NativeAudioWeb.checkAssetId v =
    match v with
    | VString s => if String.eqb s "" then Throw NoAssetIdProvided else Return tt
    | _ => Throw AssetIdNotString
    end.
Proof.
  unfold NativeAudioWeb.checkAssetId.
  destruct v as [| |b|n|s]; try reflexivity.
  cbn [typeof]. rewrite truthy_length.
  change (String.eqb "string" "string") with true. cbn [negb].
  by destruct (String.eqb s "").
Qed.

Lemma checkAssetId_identifier (v : Value) :
  NativeAudioWeb.checkAssetId v = Return tt ↔ is_identifier v = true.
Proof.
  rewrite checkAssetId_cases. unfold is_identifier.
  destruct v as [| |b|n|s]; try (split; discriminate).
  destruct (String.eqb s ""); split; (done || discriminate).
Qed.

Ltac unfold_M :=
  unfold mbind, M_bind, mret, M_ret, lift, throw, registry, set_registry,
    notifyListeners.

Lemma getAudioAsset_found (p : Plugin) (id : Value) (asset : AudioAsset) :
  is_identifier id = true →
  AUDIO_ASSET_BY_ASSET_ID p !! id = Some asset →
  NativeAudioWeb.getAudioAsset id p = (Return asset, p).
Proof.
  intros Hid Hreg. apply checkAssetId_identifier in Hid.
  unfold NativeAudioWeb.getAudioAsset. unfold_M. by rewrite Hid, Hreg.
Qed.

Lemma getAudioAsset_missing (p : Plugin) (id : Value) :
  is_identifier id = true →
  AUDIO_ASSET_BY_ASSET_ID p !! id = None →
  NativeAudioWeb.getAudioAsset id p = (Throw (AssetNotFound id), p).
Proof.
  intros Hid Hreg. apply checkAssetId_identifier in Hid.
  unfold NativeAudioWeb.getAudioAsset. unfold_M. by rewrite Hid, Hreg.
Qed.

(** An identifier that is not a non-empty string is rejected before the
    registry is consulted, whatever the registry holds. *)
Lemma getAudioAsset_invalid (p : Plugin) (id : Value) :
  is_identifier id = false →
  NativeAudioWeb.getAudioAsset id p =
    (Throw (if String.eqb (typeof id) "string" then NoAssetIdProvided
            else AssetIdNotString), p).
Proof.
  intros Hid. unfold NativeAudioWeb.getAudioAsset. unfold_M.
  rewrite checkAssetId_cases.
  destruct id as [| |b|n|s]; try reflexivity.
  cbn in Hid. apply negb_false_iff in Hid. by rewrite Hid.
Qed.

(** The lookup never changes the plugin. *)
Lemma getAudioAsset_state (p : Plugin) (id : Value) :
  snd (NativeAudioWeb.getAudioAsset id p) = p.
Proof.
  unfold NativeAudioWeb.getAudioAsset. unfold_M.
  destruct (NativeAudioWeb.checkAssetId id); [|done].
  by destruct (AUDIO_ASSET_BY_ASSET_ID p !! id).
Qed.

(** ** Operations on an identifier that is not registered *)

(** C1. For every identifier (a non-empty string) that is not present in the
    registry, play, loop, pause, resume, stop, unload, setCurrentTime,
    getCurrentTime, getDuration, setVolume, setRate and isPlaying all fail
    with AssetNotFound, and leave the plugin as it was. *)
Theorem unregistered_fails_with_AssetNotFound (p : Plugin) (id : Value) :
  is_identifier id = true →
  AUDIO_ASSET_BY_ASSET_ID p !! id = None →
  (∀ time, NativeAudioWeb.play id time p = (Throw (AssetNotFound id), p)) ∧
  NativeAudioWeb.loop id p = (Throw (AssetNotFound id), p) ∧
  NativeAudioWeb.pause id p = (Throw (AssetNotFound id), p) ∧
  NativeAudioWeb.resume id p = (Throw (AssetNotFound id), p) ∧
  NativeAudioWeb.stop id p = (Throw (AssetNotFound id), p) ∧
  NativeAudioWeb.unload id p = (Throw (AssetNotFound id), p) ∧
  (∀ time, NativeAudioWeb.setCurrentTime id time p = (Throw (AssetNotFound id), p)) ∧
  NativeAudioWeb.getCurrentTime id p = (Throw (AssetNotFound id), p) ∧
  NativeAudioWeb.getDuration id p = (Throw (AssetNotFound id), p) ∧
  (∀ volume : Number,
     NativeAudioWeb.setVolume id (VNumber volume) p = (Throw (AssetNotFound id), p)) ∧
  (∀ rate : Number,
     NativeAudioWeb.setRate id (VNumber rate) p = (Throw (AssetNotFound id), p)) ∧
  NativeAudioWeb.isPlaying id p = (Throw (AssetNotFound id), p).
Proof.
  intros Hid Hreg.
  pose proof (getAudioAsset_missing p id Hid Hreg) as Hget.
  assert (Hstop : NativeAudioWeb.stop id p = (Throw (AssetNotFound id), p)).
  { unfold NativeAudioWeb.stop, mbind, M_bind. by rewrite Hget. }
  repeat split; intros;
    try (unfold NativeAudioWeb.play, NativeAudioWeb.loop, NativeAudioWeb.pause,
           NativeAudioWeb.resume, NativeAudioWeb.setCurrentTime,
           NativeAudioWeb.getCurrentTime, NativeAudioWeb.getDuration,
           NativeAudioWeb.setVolume, NativeAudioWeb.setRate,
           NativeAudioWeb.isPlaying, mbind, M_bind; by rewrite Hget).
  - exact Hstop.
  - unfold NativeAudioWeb.unload, mbind, M_bind. by rewrite Hstop.
Qed.

Lemma unregistered_fails_with_AssetNotFound_witness :
  is_identifier (VString "b") = true ∧
  AUDIO_ASSET_BY_ASSET_ID loaded_a !! VString "b" = None ∧
  NativeAudioWeb.stop (VString "b") loaded_a
    = (Throw (AssetNotFound (VString "b")), loaded_a).
Proof.
  split; [reflexivity|]. split; [reflexivity|].
  apply (unregistered_fails_with_AssetNotFound loaded_a (VString "b")); reflexivity.
Defined.

(** ** Which calls change the set of registered identifiers *)

Lemma keeps_keys_ret {A : Type} (a : A) : keeps_keys (mret a).
Proof. by intros p. Qed.

Lemma keeps_keys_throw {A : Type} (e : Thrown) : keeps_keys (throw (A := A) e).
Proof. by intros p. Qed.

Lemma keeps_keys_lift {A : Type} (o : Outcome A) : keeps_keys (lift o).
Proof. by intros p. Qed.

Lemma keeps_keys_registry : keeps_keys registry.
Proof. by intros p. Qed.

Lemma keeps_keys_notifyListeners (name : string) (id : Value) :
  keeps_keys (notifyListeners name id).
Proof. by intros p. Qed.

Lemma keeps_keys_bind {A B : Type} (m : M A) (f : A → M B) :
  keeps_keys m → (∀ a, keeps_keys (f a)) → keeps_keys (m ≫= f).
Proof.
  intros Hm Hf p. unfold mbind, M_bind. specialize (Hm p).
  destruct (m p) as [[a|e] p']; cbn [snd] in *; [|done].
  by rewrite Hf.
Qed.

Lemma keeps_keys_on_audio (id : Value)
    (f : Audio.HTMLAudioElement → Outcome Audio.HTMLAudioElement) :
  keeps_keys (on_audio id f).
Proof.
  intros p. unfold on_audio.
  destruct (AUDIO_ASSET_BY_ASSET_ID p !! id) as [asset|] eqn:Hreg; [|done].
  destruct (f (audio asset)); [|done]. cbn.
  rewrite dom_insert_L. apply (elem_of_dom_2 (D := gset Value)) in Hreg.
  apply subseteq_union_1_L. by apply singleton_subseteq_l.
Qed.

Create HintDb keys.
#[local] Hint Resolve keeps_keys_ret keeps_keys_throw keeps_keys_lift
  keeps_keys_registry keeps_keys_notifyListeners keeps_keys_on_audio : keys.

Ltac keeps_keys_step :=
  match goal with
  | |- keeps_keys (_ ≫= _) => apply keeps_keys_bind; [|intros ?]
  | |- keeps_keys (if ?b then _ else _) => destruct b
  | |- keeps_keys (match ?x with _ => _ end) => destruct x
  | |- keeps_keys _ => solve [auto with keys]
  end.

Lemma keeps_keys_getAudioAsset (id : Value) :
  keeps_keys (NativeAudioWeb.getAudioAsset id).
Proof. unfold NativeAudioWeb.getAudioAsset. repeat keeps_keys_step. Qed.
#[local] Hint Resolve keeps_keys_getAudioAsset : keys.

Lemma keeps_keys_stop (id : Value) : keeps_keys (NativeAudioWeb.stop id).
Proof. unfold NativeAudioWeb.stop. repeat keeps_keys_step. Qed.
#[local] Hint Resolve keeps_keys_stop : keys.

Lemma keeps_keys_dispatch (ls : list Audio.Listener) : keeps_keys (Media.dispatch ls).
Proof.
  induction ls as [|l ls IH]; cbn [Media.dispatch]; [auto with keys|].
  apply keeps_keys_bind; [|done]. apply keeps_keys_notifyListeners.
Qed.
#[local] Hint Resolve keeps_keys_dispatch : keys.

Lemma keeps_keys_isPreloaded (o : PreloadOptions) :
  keeps_keys (NativeAudioWeb.isPreloaded o).
Proof.
  intros p. unfold NativeAudioWeb.isPreloaded.
  pose proof (getAudioAsset_state p (assetId o)) as H.
  destruct (NativeAudioWeb.getAudioAsset (assetId o) p) as [[a|e] p'];
    cbn [snd] in *; by subst.
Qed.

(** [preload] only adds an identifier. *)
Lemma preload_keys (o : PreloadOptions) (p : Plugin) :
  dom (AUDIO_ASSET_BY_ASSET_ID p)
    ⊆ dom (AUDIO_ASSET_BY_ASSET_ID (snd (NativeAudioWeb.preload o p))).
Proof.
  unfold NativeAudioWeb.preload. unfold_M.
  case_bool_decide; [done|].
  destruct (assetPath o) as [path|]; [|done].
  destruct (negb (truthy (length_of (VString path)))); [done|].
  destruct (apply_volume _ _); cbn; [|done].
  rewrite dom_insert_L. apply union_subseteq_r.
Qed.

(** [unload] removes at most its own identifier. *)
Lemma unload_keys (id : Value) (p : Plugin) :
  dom (AUDIO_ASSET_BY_ASSET_ID p) ∖ {[id]}
    ⊆ dom (AUDIO_ASSET_BY_ASSET_ID (snd (NativeAudioWeb.unload id p))).
Proof.
  unfold NativeAudioWeb.unload, mbind, M_bind.
  pose proof (keeps_keys_stop id p) as Hstop.
  destruct (NativeAudioWeb.stop id p) as [[[]|e] p']; cbn [snd] in *.
  - unfold registry, set_registry. cbn. rewrite dom_delete_L, Hstop. done.
  - rewrite Hstop. by apply subseteq_difference_l.
Qed.

(** Every call other than [unload(id)] keeps [id] registered. *)
Lemma exec_registered (c : Call) (p : Plugin) (id : Value) :
  c ≠ Unload id →
  id ∈ dom (AUDIO_ASSET_BY_ASSET_ID p) →
  id ∈ dom (AUDIO_ASSET_BY_ASSET_ID (exec c p)).
Proof.
  intros Hc Hin.
  assert (Hkeep : ∀ A (m : M A), keeps_keys m →
            id ∈ dom (AUDIO_ASSET_BY_ASSET_ID (snd (m p)))).
  { intros A m Hm. by rewrite Hm. }
  destruct c; cbn [exec];
    try (apply Hkeep;
         unfold NativeAudioWeb.play, NativeAudioWeb.loop, NativeAudioWeb.pause,
           NativeAudioWeb.resume, NativeAudioWeb.setCurrentTime,
           NativeAudioWeb.getCurrentTime, NativeAudioWeb.getDuration,
           NativeAudioWeb.setVolume, NativeAudioWeb.setRate,
           NativeAudioWeb.isPlaying, NativeAudioWeb.clearCache,
           NativeAudioWeb.configure, Media.ended, Media.durationchange,
           Media.timeupdate;
         solve [repeat keeps_keys_step | apply keeps_keys_isPreloaded]).
  - by apply preload_keys.
  - apply unload_keys. apply elem_of_difference. split; [done|].
    rewrite elem_of_singleton. congruence.
Qed.

Lemma run_registered (cs : list Call) (p : Plugin) (id : Value) :
  Unload id ∉ cs →
  id ∈ dom (AUDIO_ASSET_BY_ASSET_ID p) →
  id ∈ dom (AUDIO_ASSET_BY_ASSET_ID (run cs p)).
Proof.
  revert p. induction cs as [|c cs IH]; intros p Hcs Hin; [done|].
  cbn. apply IH.
  - intros H. apply Hcs. by right.
  - apply exec_registered; [|done]. intros ->. apply Hcs. by left.
Qed.

(** ** preload *)

(** A preload on a registered identifier fails and changes nothing. *)
Lemma preload_registered (o : PreloadOptions) (p : Plugin) :
  assetId o ∈ dom (AUDIO_ASSET_BY_ASSET_ID p) →
  NativeAudioWeb.preload o p = (Throw DuplicateAsset, p).
Proof.
  intros Hin. apply elem_of_dom in Hin.
  unfold NativeAudioWeb.preload. unfold_M. by rewrite bool_decide_eq_true_2.
Qed.

(** A preload that succeeds leaves its identifier registered. *)
Lemma preload_success_registered (o : PreloadOptions) (p p' : Plugin) :
  NativeAudioWeb.preload o p = (Return tt, p') →
  assetId o ∈ dom (AUDIO_ASSET_BY_ASSET_ID p').
Proof.
  unfold NativeAudioWeb.preload. unfold_M.
  case_bool_decide; [done|].
  destruct (assetPath o) as [path|]; [|done].
  destruct (negb (truthy (length_of (VString path)))); [done|].
  destruct (apply_volume _ _); cbn; [|done].
  intros [= <-]. cbn. rewrite dom_insert_L.
  apply elem_of_union. left. by apply elem_of_singleton.
Qed.

(** C2. When preload(id, ...) has succeeded and unload(id) has not been
    called since, whatever other calls and media events came in between, a
    second preload under the same identifier fails with DuplicateAsset and
    leaves the whole plugin, and with it the asset registered under id, as
    it was before the call. *)
Theorem second_preload_fails_with_DuplicateAsset
    (p p1 : Plugin) (first second : PreloadOptions) (between : list Call) :
  NativeAudioWeb.preload first p = (Return tt, p1) →
  Unload (assetId first) ∉ between →
  assetId second = assetId first →
  NativeAudioWeb.preload second (run between p1)
    = (Throw DuplicateAsset, run between p1)
  ∧ is_Some (AUDIO_ASSET_BY_ASSET_ID (run between p1) !! assetId first).
Proof.
  intros Hfirst Hbetween Hid.
  assert (Hin : assetId first ∈ dom (AUDIO_ASSET_BY_ASSET_ID (run between p1))).
  { apply run_registered; [done|]. by eapply preload_success_registered. }
  split.
  - apply preload_registered. by rewrite Hid.
  - by apply elem_of_dom.
Qed.

Lemma second_preload_fails_with_DuplicateAsset_witness :
  NativeAudioWeb.preload asset_a initial = (Return tt, loaded_a) ∧
  (Unload (VString "a") ∉ [Play (VString "a") None; Unload (VString "b")]) ∧
  NativeAudioWeb.preload asset_a
      (run [Play (VString "a") None; Unload (VString "b")] loaded_a)
    = (Throw DuplicateAsset,
       run [Play (VString "a") None; Unload (VString "b")] loaded_a).
Proof.
  assert (H1 : NativeAudioWeb.preload asset_a initial = (Return tt, loaded_a))
    by reflexivity.
  assert (H2 : Unload (VString "a") ∉ [Play (VString "a") None; Unload (VString "b")])
    by (apply (bool_decide_unpack _); vm_compute; exact I).
  split; [exact H1|]. split; [exact H2|].
  apply (second_preload_fails_with_DuplicateAsset initial loaded_a asset_a asset_a
           [Play (VString "a") None; Unload (VString "b")] H1 H2 eq_refl).
Defined.

(** ** Statements on a registered element *)

Lemma lookup_store_eq (id : Value) (a : Audio.HTMLAudioElement) (p : Plugin) :
  AUDIO_ASSET_BY_ASSET_ID (store id a p) !! id = Some {| audio := a |}.
Proof. apply lookup_insert_eq. Qed.

Lemma lookup_store_ne (id id' : Value) (a : Audio.HTMLAudioElement) (p : Plugin) :
  id ≠ id' →
  AUDIO_ASSET_BY_ASSET_ID (store id a p) !! id' = AUDIO_ASSET_BY_ASSET_ID p !! id'.
Proof. intros Hne. by apply lookup_insert_ne. Qed.

Lemma store_store (id : Value) (a b : Audio.HTMLAudioElement) (p : Plugin) :
  store id b (store id a p) = store id b p.
Proof. unfold store. cbn. by rewrite insert_insert_eq. Qed.

Lemma on_audio_found (id : Value) (asset : AudioAsset) (p : Plugin)
    (f : Audio.HTMLAudioElement → Outcome Audio.HTMLAudioElement) :
  AUDIO_ASSET_BY_ASSET_ID p !! id = Some asset →
  on_audio id f p =
    match f (audio asset) with
    | Return a' => (Return tt, store id a' p)
    | Throw e => (Throw e, p)
    end.
Proof. intros Hreg. unfold on_audio. by rewrite Hreg. Qed.

Lemma on_audio_store (id : Value) (a : Audio.HTMLAudioElement) (p : Plugin)
    (f : Audio.HTMLAudioElement → Outcome Audio.HTMLAudioElement) :
  on_audio id f (store id a p) =
    match f a with
    | Return a' => (Return tt, store id a' p)
    | Throw e => (Throw e, store id a p)
    end.
Proof.
  rewrite (on_audio_found id {| audio := a |}) by apply lookup_store_eq.
  cbn. destruct (f a); [|done]. by rewrite store_store.
Qed.

Lemma getAudioAsset_store (id : Value) (a : Audio.HTMLAudioElement) (p : Plugin) :
  is_identifier id = true →
  NativeAudioWeb.getAudioAsset id (store id a p) = (Return {| audio := a |}, store id a p).
Proof. intros Hid. apply getAudioAsset_found; [done|]. apply lookup_store_eq. Qed.

(** ** stop *)

Lemma stop_found (id : Value) (asset : AudioAsset) (p : Plugin) :
  is_identifier id = true →
  AUDIO_ASSET_BY_ASSET_ID p !! id = Some asset →
  NativeAudioWeb.stop id p = (Return tt, store id (stopped (audio asset)) p).
Proof.
  intros Hid Hreg. unfold NativeAudioWeb.stop, mbind, M_bind.
  rewrite (getAudioAsset_found p id asset Hid Hreg).
  rewrite (on_audio_found id asset p _ Hreg).
  by rewrite !on_audio_store.
Qed.

(** C7. For every asset registered under an identifier, whatever its element's
    state, stop(id) returns, and afterwards the asset is still registered
    under id with its element paused, its loop flag off and its position 0;
    the volume, the rate, the source and the duration of the element, the
    other assets and the notifications are untouched. *)
Theorem stop_resets_to_idle (p : Plugin) (id : Value) (asset : AudioAsset) :
  is_identifier id = true →
  AUDIO_ASSET_BY_ASSET_ID p !! id = Some asset →
  ∃ (p' : Plugin) (a' : Audio.HTMLAudioElement),
    NativeAudioWeb.stop id p = (Return tt, p') ∧
    AUDIO_ASSET_BY_ASSET_ID p' !! id = Some {| audio := a' |} ∧
    Audio.paused a' = true ∧
    Audio.loop a' = false ∧
    Audio.currentTime a' = 0%Qc ∧
    Audio.volume a' = Audio.volume (audio asset) ∧
    Audio.playbackRate a' = Audio.playbackRate (audio asset) ∧
    Audio.src a' = Audio.src (audio asset) ∧
    Audio.duration a' = Audio.duration (audio asset) ∧
    (∀ id', id ≠ id' →
       AUDIO_ASSET_BY_ASSET_ID p' !! id' = AUDIO_ASSET_BY_ASSET_ID p !! id') ∧
    notified p' = notified p.
Proof.
  intros Hid Hreg.
  exists (store id (stopped (audio asset)) p), (stopped (audio asset)).
  split; [by apply stop_found|].
  split; [apply lookup_store_eq|].
  repeat split; try reflexivity.
  intros id' Hne. by apply lookup_store_ne.
Qed.

Lemma stop_resets_to_idle_witness :
  is_identifier (VString "a") = true ∧
  AUDIO_ASSET_BY_ASSET_ID looping_a !! VString "a"
    = Some {| audio := Audio.play (Audio.set_loop true (stopped (prepared "x.mp3"))) |} ∧
  ∃ (p' : Plugin) (a' : Audio.HTMLAudioElement),
    NativeAudioWeb.stop (VString "a") looping_a = (Return tt, p') ∧
    AUDIO_ASSET_BY_ASSET_ID p' !! VString "a" = Some {| audio := a' |} ∧
    Audio.paused a' = true ∧ Audio.loop a' = false ∧ Audio.currentTime a' = 0%Qc.
Proof.
  split; [reflexivity|]. split; [reflexivity|].
  destruct (stop_resets_to_idle looping_a (VString "a")
              {| audio := Audio.play (Audio.set_loop true (stopped (prepared "x.mp3"))) |}
              eq_refl eq_refl)
    as (p' & a' & Hstop & Hreg & Hpaused & Hloop & Htime & _).
  exists p', a'. repeat split; assumption.
Defined.

(** ** play and loop *)

Lemma play_found (id : Value) (asset : AudioAsset) (p : Plugin) (time : option Qc) :
  is_identifier id = true →
  AUDIO_ASSET_BY_ASSET_ID p !! id = Some asset →
  NativeAudioWeb.play id (Finite <$> time) p
    = (Return tt, store id (restarted id (default 0%Qc time) (audio asset)) p).
Proof.
  intros Hid Hreg. unfold NativeAudioWeb.play, mbind at 1 2, M_bind.
  rewrite (getAudioAsset_found p id asset Hid Hreg).
  rewrite (stop_found id asset p Hid Hreg).
  replace (default (Finite 0) (Finite <$> time)) with (Finite (default 0%Qc time))
    by (by destruct time).
  unfold mbind, M_bind. rewrite !on_audio_store.
  change (Audio.set_currentTime (Finite ?q) ?a) with (Return (Audio.with_currentTime q a)).
  cbv beta iota. by rewrite !on_audio_store.
Qed.

(** A time that is not a finite number is refused by the element once the
    asset has been stopped. *)
Lemma play_non_finite (id : Value) (asset : AudioAsset) (p : Plugin) (time : Number) :
  is_identifier id = true →
  AUDIO_ASSET_BY_ASSET_ID p !! id = Some asset →
  isFinite time = false →
  NativeAudioWeb.play id (Some time) p
    = (Throw TypeError, store id (stopped (audio asset)) p).
Proof.
  intros Hid Hreg Htime. unfold NativeAudioWeb.play, mbind at 1 2, M_bind.
  rewrite (getAudioAsset_found p id asset Hid Hreg).
  rewrite (stop_found id asset p Hid Hreg).
  unfold mbind, M_bind. rewrite !on_audio_store.
  by destruct time.
Qed.

Lemma loop_found (id : Value) (asset : AudioAsset) (p : Plugin) :
  is_identifier id = true →
  AUDIO_ASSET_BY_ASSET_ID p !! id = Some asset →
  NativeAudioWeb.loop id p
    = (Return tt, store id (Audio.play (Audio.set_loop true (stopped (audio asset)))) p).
Proof.
  intros Hid Hreg. unfold NativeAudioWeb.loop, mbind at 1 2, M_bind.
  rewrite (getAudioAsset_found p id asset Hid Hreg).
  rewrite (stop_found id asset p Hid Hreg).
  unfold mbind, M_bind. by rewrite !on_audio_store.
Qed.



(** ** getDuration *)

(** C6. For every asset registered under an identifier, getDuration fails
    with NoDurationYet when the element's duration is NaN, fails with
    DurationUnavailable when it is an infinity, and otherwise returns the
    element's finite duration; it never changes the plugin. *)
Theorem getDuration_by_cases (p : Plugin) (id : Value) (asset : AudioAsset) :
  is_identifier id = true →
  AUDIO_ASSET_BY_ASSET_ID p !! id = Some asset →
  NativeAudioWeb.getDuration id p =
    match Audio.duration (audio asset) with
    | NaN => (Throw NoDurationYet, p)
    | Infinity _ => (Throw DurationUnavailable, p)
    | Finite d => (Return (Finite d), p)
    end.
Proof.
  intros Hid Hreg. unfold NativeAudioWeb.getDuration, mbind, M_bind.
  rewrite (getAudioAsset_found p id asset Hid Hreg).
  by destruct (Audio.duration (audio asset)).
Qed.

Lemma getDuration_by_cases_witness :
  is_identifier (VString "a") = true ∧
  AUDIO_ASSET_BY_ASSET_ID measured_a !! VString "a"
    = Some {| audio := Audio.with_duration (Finite (Q2Qc 12)) (prepared "x.mp3") |} ∧
  NativeAudioWeb.getDuration (VString "a") measured_a
    = (Return (Finite (Q2Qc 12)), measured_a) ∧
  NativeAudioWeb.getDuration (VString "a") loaded_a = (Throw NoDurationYet, loaded_a).
Proof.
  split; [reflexivity|]. split; [reflexivity|]. split.
  - exact (getDuration_by_cases measured_a (VString "a")
             {| audio := Audio.with_duration (Finite (Q2Qc 12)) (prepared "x.mp3") |}
             eq_refl eq_refl).
  - exact (getDuration_by_cases loaded_a (VString "a")
             {| audio := prepared "x.mp3" |} eq_refl eq_refl).
Defined.

(** ** unload and preload *)

(** With [FILE_LOCATION] empty the pattern matches every path, so the path
    is never rewritten. *)
Lemma test_FILE_LOCATION_always (path : string) :
  NativeAudioWeb.test_FILE_LOCATION path = true.
Proof. by destruct path. Qed.

Lemma preload_fresh (o : PreloadOptions) (path : string) (p : Plugin) :
  AUDIO_ASSET_BY_ASSET_ID p !! assetId o = None →
  assetPath o = Some path →
  path ≠ "" →
  NativeAudioWeb.preload o p =
    match apply_volume (volume o) (prepared path) with
    | Return a => (Return tt, store (assetId o) a p)
    | Throw e => (Throw e, p)
    end.
Proof.
  intros Hreg Hpath Hne. unfold NativeAudioWeb.preload. unfold_M.
  rewrite Hreg, Hpath, truthy_length.
  rewrite bool_decide_eq_false_2 by (by intros [? ?]).
  apply String.eqb_neq in Hne. rewrite Hne. cbn [negb].
  rewrite test_FILE_LOCATION_always, andb_false_r.
  unfold apply_volume, prepared.
  by destruct (volume o) as [v|]; [destruct (number_truthy v)|].
Qed.

Lemma preload_no_path (o : PreloadOptions) (p : Plugin) :
  AUDIO_ASSET_BY_ASSET_ID p !! assetId o = None →
  assetPath o = None ∨ assetPath o = Some "" →
  NativeAudioWeb.preload o p = (Throw MissingAssetPath, p).
Proof.
  intros Hreg Hpath. unfold NativeAudioWeb.preload. unfold_M.
  rewrite Hreg, bool_decide_eq_false_2 by (by intros [? ?]).
  by destruct Hpath as [-> | ->].
Qed.

Lemma unload_found (id : Value) (asset : AudioAsset) (p : Plugin) :
  is_identifier id = true →
  AUDIO_ASSET_BY_ASSET_ID p !! id = Some asset →
  NativeAudioWeb.unload id p =
    (Return tt, {| AUDIO_ASSET_BY_ASSET_ID := delete id (AUDIO_ASSET_BY_ASSET_ID p);
                   notified := notified p |}).
Proof.
  intros Hid Hreg. unfold NativeAudioWeb.unload, mbind, M_bind.
  rewrite (stop_found id asset p Hid Hreg).
  unfold registry, set_registry, store. cbn. by rewrite delete_insert_eq.
Qed.

(** C8. For every identifier id under which an asset is registered,
    unload(id) returns and removes the registry entry, and a preload(id,
    path) with a non-empty path that follows immediately does not fail with
    DuplicateAsset: it registers under id a fresh element for the path, paused
    at position 0 with no listener (when the call carries a volume, the
    outcome is that of assigning it to the fresh element). *)
Theorem unload_then_preload_succeeds
    (p : Plugin) (id : Value) (asset : AudioAsset) (o : PreloadOptions) (path : string) :
  is_identifier id = true →
  AUDIO_ASSET_BY_ASSET_ID p !! id = Some asset →
  assetId o = id →
  assetPath o = Some path →
  path ≠ "" →
  ∃ p1 : Plugin,
    NativeAudioWeb.unload id p = (Return tt, p1) ∧
    AUDIO_ASSET_BY_ASSET_ID p1 !! id = None ∧
    fst (NativeAudioWeb.preload o p1) ≠ Throw DuplicateAsset ∧
    NativeAudioWeb.preload o p1 =
      match apply_volume (volume o) (prepared path) with
      | Return a => (Return tt, store id a p1)
      | Throw e => (Throw e, p1)
      end ∧
    (volume o = None →
       NativeAudioWeb.preload o p1 = (Return tt, store id (prepared path) p1) ∧
       AUDIO_ASSET_BY_ASSET_ID (store id (prepared path) p1) !! id
         = Some {| audio := prepared path |}).
Proof.
  intros Hid Hreg Ho Hpath Hne.
  eexists. split; [exact (unload_found id asset p Hid Hreg)|].
  assert (Hgone : delete id (AUDIO_ASSET_BY_ASSET_ID p) !! id = None)
    by apply lookup_delete_eq.
  split; [exact Hgone|].
  assert (Hpre := preload_fresh o path
            {| AUDIO_ASSET_BY_ASSET_ID := delete id (AUDIO_ASSET_BY_ASSET_ID p);
               notified := notified p |}).
  rewrite Ho in Hpre. specialize (Hpre Hgone Hpath Hne).
  split; [|split; [exact Hpre|]].
  - rewrite Hpre. destruct (apply_volume (volume o) (prepared path)) as [a|e] eqn:Hvol;
      cbn [fst]; [discriminate|].
    unfold apply_volume, Audio.set_volume in Hvol.
    destruct (volume o) as [[| |q]|]; cbn in Hvol; try discriminate;
      try (injection Hvol as <-; discriminate).
    destruct (negb (Qeq_bool q 0)); [|discriminate].
    destruct (within 0 1 q); [discriminate|].
    injection Hvol as <-. discriminate.
  - intros Hvol. rewrite Hvol in Hpre. split; [exact Hpre|]. apply lookup_store_eq.
Qed.

Lemma unload_then_preload_succeeds_witness :
  is_identifier (VString "a") = true ∧
  AUDIO_ASSET_BY_ASSET_ID looping_a !! VString "a"
    = Some {| audio := Audio.play (Audio.set_loop true (stopped (prepared "x.mp3"))) |} ∧
  ∃ p1 : Plugin,
    NativeAudioWeb.unload (VString "a") looping_a = (Return tt, p1) ∧
    AUDIO_ASSET_BY_ASSET_ID p1 !! VString "a" = None ∧
    NativeAudioWeb.preload asset_a p1
      = (Return tt, store (VString "a") (prepared "x.mp3") p1).
Proof.
  split; [reflexivity|]. split; [reflexivity|].
  destruct (unload_then_preload_succeeds looping_a (VString "a")
              {| audio := Audio.play (Audio.set_loop true (stopped (prepared "x.mp3"))) |}
              asset_a "x.mp3" eq_refl eq_refl eq_refl eq_refl)
    as (p1 & Hunload & Hgone & _ & _ & Hfresh); [discriminate|].
  exists p1. split; [assumption|]. split; [assumption|].
  exact (proj1 (Hfresh eq_refl)).
Defined.

(** ** The volume option of preload *)

Lemma number_truthy_finite (q : Qc) :
  number_truthy (Finite q) = true ↔ q ≠ 0%Qc.
Proof.
  unfold number_truthy. rewrite negb_true_iff. split.
  - intros H ->. discriminate.
  - intros H. destruct (Qeq_bool q 0) eqn:E; [|done].
    exfalso. apply H. apply Qc_is_canon. by apply Qeq_bool_iff in E.
Qed.

(** C10. A preload that registers a new asset and carries the volume 0 does
    not assign that volume: the element is registered with the default volume
    1.  A volume other than 0 is assigned to the element: inside [0, 1] it
    becomes the element's volume. *)
Theorem preload_ignores_volume_zero (p : Plugin) (o : PreloadOptions) (path : string) :
  AUDIO_ASSET_BY_ASSET_ID p !! assetId o = None →
  assetPath o = Some path →
  path ≠ "" →
  (volume o = Some (Finite 0) →
     NativeAudioWeb.preload o p = (Return tt, store (assetId o) (prepared path) p) ∧
     Audio.volume (prepared path) = 1%Qc) ∧
  (∀ q : Qc, volume o = Some (Finite q) → q ≠ 0%Qc →
     NativeAudioWeb.preload o p =
       match Audio.set_volume (Finite q) (prepared path) with
       | Return a => (Return tt, store (assetId o) a p)
       | Throw e => (Throw e, p)
       end) ∧
  (∀ q : Qc, volume o = Some (Finite q) → q ≠ 0%Qc → within 0 1 q = true →
     NativeAudioWeb.preload o p
       = (Return tt, store (assetId o) (Audio.with_volume q (prepared path)) p) ∧
     Audio.volume (Audio.with_volume q (prepared path)) = q).
Proof.
  intros Hreg Hpath Hne.
  pose proof (preload_fresh o path p Hreg Hpath Hne) as Hpre.
  split; [|split].
  - intros Hvol. rewrite Hvol in Hpre. by split.
  - intros q Hvol Hq. rewrite Hvol in Hpre. cbn [apply_volume] in Hpre.
    apply number_truthy_finite in Hq. by rewrite Hq in Hpre.
  - intros q Hvol Hq Hin. rewrite Hvol in Hpre. cbn [apply_volume] in Hpre.
    apply number_truthy_finite in Hq. rewrite Hq in Hpre.
    unfold Audio.set_volume in Hpre. cbn in Hpre. rewrite Hin in Hpre. by split.
Qed.

Lemma preload_ignores_volume_zero_witness :
  AUDIO_ASSET_BY_ASSET_ID initial !! VString "a" = None ∧
  NativeAudioWeb.preload asset_a_muted initial
    = (Return tt, store (VString "a") (prepared "x.mp3") initial) ∧
  Audio.volume (prepared "x.mp3") = 1%Qc.
Proof.
  split; [reflexivity|].
  destruct (preload_ignores_volume_zero initial asset_a_muted "x.mp3" eq_refl eq_refl)
    as [Hzero _]; [discriminate|].
  exact (Hzero eq_refl).
Defined.

(** ** setVolume and setRate *)

Lemma within_spec (lo hi q : Qc) :
  within lo hi q = true ↔ (lo ≤ q ∧ q ≤ hi)%Qc.
Proof.
  unfold within. rewrite andb_true_iff, !Qle_bool_iff. reflexivity.
Qed.

Lemma setVolume_found (id : Value) (asset : AudioAsset) (p : Plugin) (n : Number) :
  is_identifier id = true →
  AUDIO_ASSET_BY_ASSET_ID p !! id = Some asset →
  NativeAudioWeb.setVolume id (VNumber n) p =
    match Audio.set_volume n (audio asset) with
    | Return a => (Return tt, store id a p)
    | Throw e => (Throw e, p)
    end.
Proof.
  intros Hid Hreg. unfold NativeAudioWeb.setVolume, mbind, M_bind.
  rewrite (getAudioAsset_found p id asset Hid Hreg).
  by rewrite (on_audio_found id asset p _ Hreg).
Qed.

Lemma setRate_found (id : Value) (asset : AudioAsset) (p : Plugin) (n : Number) :
  is_identifier id = true →
  AUDIO_ASSET_BY_ASSET_ID p !! id = Some asset →
  NativeAudioWeb.setRate id (VNumber n) p =
    match Audio.set_playbackRate n (audio asset) with
    | Return a => (Return tt, store id a p)
    | Throw e => (Throw e, p)
    end.
Proof.
  intros Hid Hreg. unfold NativeAudioWeb.setRate, mbind, M_bind.
  rewrite (getAudioAsset_found p id asset Hid Hreg).
  by rewrite (on_audio_found id asset p _ Hreg).
Qed.

(** C5, as the code has it. For every asset registered under an identifier:
    setVolume with a finite volume outside [0, 1] fails, because the audio
    element refuses the assignment with an IndexSizeError, and leaves the
    plugin, hence the stored volume and rate, unchanged, and a volume within
    [0, 1] is stored.  setRate checks no range: whatever number the rate is,
    inside [0.25, 4] or not, it is handed to the element's playbackRate, and
    the asset changes exactly when the element accepts it, to the element the
    assignment leaves.  What the plugin itself rejects is a volume or a rate
    that is not a number (NoVolumeProvided, NoRateProvided), and the element
    refuses a number that is not finite with a TypeError; in these cases too
    the plugin is unchanged. *)
Theorem setVolume_setRate_validation (p : Plugin) (id : Value) (asset : AudioAsset) :
  is_identifier id = true →
  AUDIO_ASSET_BY_ASSET_ID p !! id = Some asset →
  (∀ q : Qc, (q < MinVolume ∨ MaxVolume < q)%Qc →
     NativeAudioWeb.setVolume id (VNumber (Finite q)) p = (Throw IndexSizeError, p)) ∧
  (∀ q : Qc, (MinVolume ≤ q ∧ q ≤ MaxVolume)%Qc →
     NativeAudioWeb.setVolume id (VNumber (Finite q)) p
       = (Return tt, store id (Audio.with_volume q (audio asset)) p)) ∧
  (∀ n : Number,
     NativeAudioWeb.setRate id (VNumber n) p =
       match Audio.set_playbackRate n (audio asset) with
       | Return a => (Return tt, store id a p)
       | Throw e => (Throw e, p)
       end) ∧
  (∀ v : Value, typeof v ≠ "number" →
     NativeAudioWeb.setVolume id v p = (Throw NoVolumeProvided, p) ∧
     NativeAudioWeb.setRate id v p = (Throw NoRateProvided, p)) ∧
  (∀ n : Number, isFinite n = false →
     NativeAudioWeb.setVolume id (VNumber n) p = (Throw TypeError, p) ∧
     NativeAudioWeb.setRate id (VNumber n) p = (Throw TypeError, p)).
Proof.
  intros Hid Hreg. repeat split.
  - intros q Hq. rewrite (setVolume_found id asset p _ Hid Hreg).
    unfold Audio.set_volume. cbn [Audio.to_double mbind Outcome_bind].
    destruct (within 0 1 q) eqn:Hin; [|done].
    apply within_spec in Hin as [Hlo Hhi].
    destruct Hq as [Hq|Hq]; [by apply Qclt_not_le in Hq|by apply Qclt_not_le in Hq].
  - intros q Hq. rewrite (setVolume_found id asset p _ Hid Hreg).
    unfold Audio.set_volume. cbn [Audio.to_double mbind Outcome_bind].
    apply within_spec in Hq. unfold MinVolume, MaxVolume in Hq. by rewrite Hq.
  - intros n. by apply setRate_found.
  - by destruct v.
  - by destruct v.
  - rewrite (setVolume_found id asset p _ Hid Hreg). by destruct n.
  - rewrite (setRate_found id asset p _ Hid Hreg). by destruct n.
Qed.

Lemma setVolume_setRate_validation_witness :
  is_identifier (VString "a") = true ∧
  AUDIO_ASSET_BY_ASSET_ID loaded_a !! VString "a" = Some {| audio := prepared "x.mp3" |} ∧
  NativeAudioWeb.setVolume (VString "a") (VNumber (Finite (Q2Qc 2))) loaded_a
    = (Throw IndexSizeError, loaded_a) ∧
  NativeAudioWeb.setRate (VString "a") (VNumber (Finite (Q2Qc 5))) loaded_a
    = match Audio.set_playbackRate (Finite (Q2Qc 5)) (prepared "x.mp3") with
      | Return a => (Return tt, store (VString "a") a loaded_a)
      | Throw e => (Throw e, loaded_a)
      end.
Proof.
  split; [reflexivity|]. split; [reflexivity|].
  destruct (setVolume_setRate_validation loaded_a (VString "a")
              {| audio := prepared "x.mp3" |} eq_refl eq_refl)
    as (Hout & _ & Hrate & _).
  split; [|exact (Hrate (Finite (Q2Qc 5)))].
  apply (Hout (Q2Qc 2)). right. reflexivity.
Defined.

(** ** isPreloaded *)

(** C9, as the code has it. isPreloaded never fails and never changes the
    plugin, whatever value it is given as identifier: it returns found: true
    exactly when the identifier is a non-empty string and is registered, and
    found: false otherwise (also for an empty string or a value that is not a
    string that preload has registered). *)
Theorem isPreloaded_never_fails (p : Plugin) (o : PreloadOptions) :
  NativeAudioWeb.isPreloaded o p =
    (Return (is_identifier (assetId o)
             && bool_decide (is_Some (AUDIO_ASSET_BY_ASSET_ID p !! assetId o))), p).
Proof.
  unfold NativeAudioWeb.isPreloaded.
  destruct (is_identifier (assetId o)) eqn:Hid.
  - destruct (AUDIO_ASSET_BY_ASSET_ID p !! assetId o) as [asset|] eqn:Hreg.
    + by rewrite (getAudioAsset_found p _ asset Hid Hreg).
    + by rewrite (getAudioAsset_missing p _ Hid Hreg).
  - by rewrite (getAudioAsset_invalid p _ Hid).
Qed.

(** preload accepts the empty string as identifier and registers the asset;
    isPreloaded then answers found: false for this registered identifier. *)
Lemma isPreloaded_misses_registered_empty_identifier :
  NativeAudioWeb.preload asset_empty initial = (Return tt, loaded_empty) ∧
  AUDIO_ASSET_BY_ASSET_ID loaded_empty !! VString ""
    = Some {| audio := prepared "x.mp3" |} ∧
  NativeAudioWeb.isPreloaded asset_empty loaded_empty = (Return false, loaded_empty).
Proof. repeat split. Qed.

(** An asset registered under the empty string cannot be unloaded either. *)
Lemma unload_empty_identifier :
  NativeAudioWeb.unload (VString "") loaded_empty = (Throw NoAssetIdProvided, loaded_empty).
Proof. reflexivity. Qed.

(** A rate outside [MinRate, MaxRate] is accepted and stored. *)
Lemma setRate_stores_out_of_range_rate :
  within MinRate MaxRate (Q2Qc 5) = false ∧
  AUDIO_ASSET_BY_ASSET_ID loaded_a !! VString "a" = Some {| audio := prepared "x.mp3" |} ∧
  Audio.playbackRate (prepared "x.mp3") = 1%Qc ∧
  NativeAudioWeb.setRate (VString "a") (VNumber (Finite (Q2Qc 5))) loaded_a
    = (Return tt,
       store (VString "a") (Audio.with_playbackRate (Q2Qc 5) (prepared "x.mp3")) loaded_a) ∧
  Audio.playbackRate (Audio.with_playbackRate (Q2Qc 5) (prepared "x.mp3")) = Q2Qc 5 ∧
  Q2Qc 5 ≠ 1%Qc.
Proof.
  repeat split. intros H.
  apply (f_equal (fun q : Qc => Qnum q)) in H. vm_compute in H. discriminate.
Qed.

(** ** The complete event *)

Lemma dispatch_notified (ls : list Audio.Listener) (p : Plugin) :
  Media.dispatch ls p =
    (Return tt,
     {| AUDIO_ASSET_BY_ASSET_ID := AUDIO_ASSET_BY_ASSET_ID p;
        notified :=
          (notified p ++ map (fun l => ("complete", Audio.captured l)) ls)%list |}).
Proof.
  revert p. induction ls as [|l ls IH]; intros p.
  - cbn. rewrite app_nil_r. by destruct p.
  - cbn [Media.dispatch]. unfold mbind, M_bind, NativeAudioWeb.onEnded, notifyListeners.
    rewrite IH. cbn. by rewrite <- app_assoc.
Qed.

(** A natural completion notifies once for every listener on the element. *)
Lemma ended_notifies_every_listener (id : Value) (asset : AudioAsset) (p : Plugin) :
  AUDIO_ASSET_BY_ASSET_ID p !! id = Some asset →
  Audio.paused (audio asset) = false →
  Audio.loop (audio asset) = false →
  notified (snd (Media.ended id p)) =
    (notified p
     ++ map (fun l => ("complete", Audio.captured l))
          (Audio.ended_listeners (audio asset)))%list.
Proof.
  intros Hreg Hpaused Hloop. unfold Media.ended, mbind, M_bind, registry.
  rewrite Hreg, Hpaused, Hloop. cbn [orb].
  rewrite (on_audio_found id asset p _ Hreg). by rewrite dispatch_notified.
Qed.

(** While the element loops, or is paused, no completion is notified. *)
Lemma ended_silent (id : Value) (asset : AudioAsset) (p : Plugin) :
  AUDIO_ASSET_BY_ASSET_ID p !! id = Some asset →
  Audio.paused (audio asset) = true ∨ Audio.loop (audio asset) = true →
  Media.ended id p = (Return tt, p).
Proof.
  intros Hreg H. unfold Media.ended, mbind, M_bind, registry. rewrite Hreg.
  destruct H as [-> | ->]; [done|]. by rewrite orb_true_r.
Qed.

(** Every play adds a listener and none is removed by stop, so after two plays
    on an asset without listeners one natural completion notifies twice. *)
Lemma play_twice_notifies_twice
    (p : Plugin) (id : Value) (asset : AudioAsset) (t1 t2 : option Qc) :
  is_identifier id = true →
  AUDIO_ASSET_BY_ASSET_ID p !! id = Some asset →
  Audio.ended_listeners (audio asset) = [] →
  notified (run [Play id (Finite <$> t1); Play id (Finite <$> t2); Ended id] p)
    = (notified p ++ [("complete", id); ("complete", id)])%list.
Proof.
  intros Hid Hreg Hls. cbn [run foldl exec].
  rewrite (play_found id asset p t1 Hid Hreg). cbn [snd].
  rewrite (play_found id _ _ t2 Hid (lookup_store_eq _ _ _)). cbn [snd].
  rewrite store_store.
  rewrite (ended_notifies_every_listener id _ _ (lookup_store_eq _ _ _)) by done.
  cbn. by rewrite Hls.
Qed.

(** C4, at the failing input. After preload('a'), play('a'), play('a'), one
    natural completion of the playback notifies 'complete' for 'a' twice. *)
Theorem complete_notified_twice_after_two_plays :
  notified (run [Preload asset_a; Play (VString "a") None; Play (VString "a") None;
                 Ended (VString "a")] initial)
    = [("complete", VString "a"); ("complete", VString "a")]
  ∧ completions (VString "a")
      (run [Preload asset_a; Play (VString "a") None; Play (VString "a") None;
            Ended (VString "a")] initial) = 2.
Proof. split; reflexivity. Qed.

(** After a single play the completion is notified once, and a looped
    playback notifies nothing. *)
Lemma complete_notified_once_after_one_play :
  notified (run [Preload asset_a; Play (VString "a") None; Ended (VString "a")] initial)
    = [("complete", VString "a")]
  ∧ notified (run [Preload asset_a; Loop (VString "a"); Ended (VString "a")] initial) = [].
Proof. split; reflexivity. Qed.

(** * Further properties of the plugin *)

(** ** Relations kept by every step of a method *)

Section Always.
Context (R : Plugin → Plugin → Prop) `{!Reflexive R} `{!Transitive R}.

Lemma always_ret {A : Type} (a : A) : always R (mret a).
Proof. intros p. cbn. reflexivity. Qed.

Lemma always_throw {A : Type} (e : Thrown) : always R (throw (A := A) e).
Proof. intros p. cbn. reflexivity. Qed.

Lemma always_lift {A : Type} (o : Outcome A) : always R (lift o).
Proof. intros p. cbn. reflexivity. Qed.

Lemma always_registry : always R registry.
Proof. intros p. cbn. reflexivity. Qed.

Lemma always_bind {A B : Type} (m : M A) (f : A → M B) :
  always R m → (∀ a, always R (f a)) → always R (m ≫= f).
Proof.
  intros Hm Hf p. unfold mbind, M_bind. specialize (Hm p).
  destruct (m p) as [[a|e] p']; cbn [snd] in *; [|done].
  by etrans; [exact Hm|apply Hf].
Qed.

End Always.

Global Instance same_asset_refl (id : Value) : Reflexive (same_asset id).
Proof. by intros p. Qed.
Global Instance same_asset_trans (id : Value) : Transitive (same_asset id).
Proof. unfold same_asset. intros p1 p2 p3 H1 H2. by rewrite H2. Qed.

Global Instance same_notified_refl : Reflexive same_notified.
Proof. by intros p. Qed.
Global Instance same_notified_trans : Transitive same_notified.
Proof. unfold same_notified. intros p1 p2 p3 H1 H2. by rewrite H2. Qed.

Global Instance same_attribute_refl {T : Type} (proj : Audio.HTMLAudioElement → T)
  (id : Value) : Reflexive (same_attribute proj id).
Proof. intros p asset Hreg. by exists asset. Qed.
Global Instance same_attribute_trans {T : Type} (proj : Audio.HTMLAudioElement → T)
  (id : Value) : Transitive (same_attribute proj id).
Proof.
  intros p1 p2 p3 H1 H2 asset Hreg.
  destruct (H1 asset Hreg) as (asset2 & Hreg2 & Heq2).
  destruct (H2 asset2 Hreg2) as (asset3 & Hreg3 & Heq3).
  exists asset3. split; [done|]. by rewrite Heq3.
Qed.

(** One step of the proof that a method keeps a relation; [tac] settles the
    statements on an element and the notifications. *)
Ltac always_step tac :=
  match goal with
  | |- always _ (_ ≫= _) => apply always_bind; [apply _| |intros ?]
  | |- always _ (if ?b then _ else _) => destruct b
  | |- always _ (match ?x with _ => _ end) => destruct x
  | |- always _ (mret _) => apply always_ret; apply _
  | |- always _ (throw _) => apply always_throw; apply _
  | |- always _ (lift _) => apply always_lift; apply _
  | |- always _ registry => apply always_registry; apply _
  | |- always _ _ => solve [tac]
  end.

Ltac unfold_methods :=
  unfold NativeAudioWeb.play, NativeAudioWeb.loop, NativeAudioWeb.pause,
    NativeAudioWeb.resume, NativeAudioWeb.stop, NativeAudioWeb.setCurrentTime,
    NativeAudioWeb.getCurrentTime, NativeAudioWeb.getDuration,
    NativeAudioWeb.setVolume, NativeAudioWeb.setRate, NativeAudioWeb.isPlaying,
    NativeAudioWeb.clearCache, NativeAudioWeb.configure,
    NativeAudioWeb.getAudioAsset, NativeAudioWeb.onEnded,
    Media.ended, Media.durationchange, Media.timeupdate;
  cbv zeta.

Lemma always_isPreloaded (R : Plugin → Plugin → Prop) `{!Reflexive R}
    (o : PreloadOptions) :
  always R (NativeAudioWeb.isPreloaded o).
Proof.
  intros p. unfold NativeAudioWeb.isPreloaded.
  pose proof (getAudioAsset_state p (assetId o)) as H.
  destruct (NativeAudioWeb.getAudioAsset (assetId o) p) as [[a|e] p'];
    cbn [snd] in *; by subst.
Qed.

(** ** Assets do not interfere *)

Lemma same_asset_on_audio (id id' : Value)
    (f : Audio.HTMLAudioElement → Outcome Audio.HTMLAudioElement) :
  id' ≠ id → always (same_asset id) (on_audio id' f).
Proof.
  intros Hne p. unfold on_audio, same_asset.
  destruct (AUDIO_ASSET_BY_ASSET_ID p !! id') as [asset|]; [|done].
  destruct (f (audio asset)); [|done]. cbn. by apply lookup_insert_ne.
Qed.

Lemma same_asset_notifyListeners (id : Value) (name : string) (id' : Value) :
  always (same_asset id) (notifyListeners name id').
Proof. by intros p. Qed.

Lemma same_asset_dispatch (id : Value) (ls : list Audio.Listener) :
  always (same_asset id) (Media.dispatch ls).
Proof.
  induction ls as [|l ls IH]; cbn [Media.dispatch]; [apply always_ret; apply _|].
  apply always_bind; [apply _|apply same_asset_notifyListeners|done].
Qed.

Lemma same_asset_preload (id : Value) (o : PreloadOptions) :
  assetId o ≠ id → always (same_asset id) (NativeAudioWeb.preload o).
Proof.
  intros Hne p. unfold NativeAudioWeb.preload, same_asset. unfold_M.
  case_bool_decide; [done|].
  destruct (assetPath o) as [path|]; [|done].
  destruct (negb (truthy (length_of (VString path)))); [done|].
  destruct (apply_volume _ _); cbn; [|done]. by apply lookup_insert_ne.
Qed.

Lemma same_asset_unload (id id' : Value) :
  id' ≠ id → always (same_asset id) (NativeAudioWeb.unload id').
Proof.
  intros Hne. unfold NativeAudioWeb.unload.
  apply always_bind; [apply _| |intros _].
  - unfold_methods.
    repeat always_step ltac:(apply same_asset_on_audio; congruence).
  - intros p. unfold same_asset. unfold_M. cbn. by apply lookup_delete_ne.
Qed.

(** X1. A call leaves every asset other than the one it names exactly as it
    was: same registration, same element. *)
Theorem other_assets_untouched (c : Call) (p : Plugin) (id : Value) :
  target c ≠ Some id →
  AUDIO_ASSET_BY_ASSET_ID (exec c p) !! id = AUDIO_ASSET_BY_ASSET_ID p !! id.
Proof.
  intros Hc. change (same_asset id p (exec c p)).
  assert (Hrun : ∀ A (m : M A), always (same_asset id) m → same_asset id p (snd (m p)))
    by (intros A m Hm; apply Hm).
  destruct c; cbn [exec target] in *; apply Hrun;
    try (by apply same_asset_preload; congruence);
    try (by apply always_isPreloaded; apply _);
    try (by apply same_asset_unload; congruence);
    unfold_methods;
    repeat always_step ltac:(first
      [ apply same_asset_on_audio; congruence
      | apply same_asset_dispatch
      | apply same_asset_notifyListeners ]).
Qed.

Lemma other_assets_untouched_witness :
  target (Unload (VString "a")) ≠ Some (VString "b") ∧
  AUDIO_ASSET_BY_ASSET_ID (exec (Unload (VString "a")) loaded_two) !! VString "b"
    = AUDIO_ASSET_BY_ASSET_ID loaded_two !! VString "b".
Proof.
  assert (H : target (Unload (VString "a")) ≠ Some (VString "b")) by discriminate.
  split; [exact H|].
  exact (other_assets_untouched (Unload (VString "a")) loaded_two (VString "b") H).
Defined.

(** ** Who notifies *)

Lemma same_notified_on_audio (id : Value)
    (f : Audio.HTMLAudioElement → Outcome Audio.HTMLAudioElement) :
  always same_notified (on_audio id f).
Proof.
  intros p. unfold on_audio, same_notified.
  destruct (AUDIO_ASSET_BY_ASSET_ID p !! id) as [asset|]; [|done].
  by destruct (f (audio asset)).
Qed.

Lemma exec_same_notified (c : Call) (p : Plugin) :
  (∀ id, c ≠ Ended id) → same_notified p (exec c p).
Proof.
  intros Hc.
  assert (Hrun : ∀ A (m : M A), always same_notified m → same_notified p (snd (m p)))
    by (intros A m Hm; apply Hm).
  destruct c; cbn [exec]; try (by destruct (Hc assetId0)); apply Hrun;
    try (by apply always_isPreloaded; apply _).
  all: try (unfold_methods; by repeat always_step ltac:(apply same_notified_on_audio)).
  - intros p0. unfold NativeAudioWeb.preload, same_notified. unfold_M.
    case_bool_decide; [done|].
    destruct (assetPath options) as [path|]; [|done].
    destruct (negb (truthy (length_of (VString path)))); [done|].
    by destruct (apply_volume _ _).
  - unfold NativeAudioWeb.unload. apply always_bind; [apply _| |intros _; by intros p0].
    unfold_methods. by repeat always_step ltac:(apply same_notified_on_audio).
Qed.

(** X2. No method of the plugin notifies by itself, and neither does a
    change of duration or of position: after every call other than the media
    event 'ended' the notifications are those from before. *)
Theorem only_ended_notifies (c : Call) (p : Plugin) :
  (∀ id, c ≠ Ended id) →
  notified (exec c p) = notified p.
Proof. apply exec_same_notified. Qed.

Lemma only_ended_notifies_witness :
  (∀ id, Play (VString "a") None ≠ Ended id) ∧
  notified (exec (Play (VString "a") None) loaded_a) = notified loaded_a.
Proof.
  assert (H : ∀ id, Play (VString "a") None ≠ Ended id) by discriminate.
  split; [exact H|].
  exact (only_ended_notifies (Play (VString "a") None) loaded_a H).
Defined.

(** ** What changes the volume, the rate and the source *)

Lemma same_attribute_on_audio {T : Type} (proj : Audio.HTMLAudioElement → T)
    (id id' : Value) (f : Audio.HTMLAudioElement → Outcome Audio.HTMLAudioElement) :
  id' ≠ id ∨ (∀ a a', f a = Return a' → proj a' = proj a) →
  always (same_attribute proj id) (on_audio id' f).
Proof.
  intros Hf p asset Hreg. unfold on_audio.
  destruct (AUDIO_ASSET_BY_ASSET_ID p !! id') as [asset'|] eqn:Hreg';
    [|by exists asset].
  destruct (f (audio asset')) as [a'|e] eqn:Hfa; [|by exists asset]. cbn.
  destruct (decide (id' = id)) as [->|Hne].
  - exists {| audio := a' |}. split; [apply lookup_insert_eq|].
    destruct Hf as [Hf|Hf]; [done|]. cbn. rewrite (Hf _ _ Hfa). congruence.
  - exists asset. split; [|done]. by rewrite lookup_insert_ne.
Qed.

Lemma same_attribute_same_asset {T : Type} (proj : Audio.HTMLAudioElement → T)
    (id : Value) (p p' : Plugin) :
  same_asset id p p' → same_attribute proj id p p'.
Proof. intros H asset Hreg. exists asset. split; [|done]. by rewrite H. Qed.

Lemma same_attribute_dispatch {T : Type} (proj : Audio.HTMLAudioElement → T)
    (id : Value) (ls : list Audio.Listener) :
  always (same_attribute proj id) (Media.dispatch ls).
Proof.
  intros p. apply same_attribute_same_asset. apply same_asset_dispatch.
Qed.

(** The setters and the other statements on an element, by the attributes
    they leave alone. *)
Ltac attribute_kept :=
  right; intros ? ?;
  unfold Audio.set_currentTime, Audio.set_volume, Audio.set_playbackRate,
    Audio.to_double;
  unfold mbind, Outcome_bind;
  let H := fresh in intros H; repeat case_match; simplify_eq; reflexivity.

Ltac same_attribute_step :=
  always_step ltac:(first
    [ apply same_attribute_dispatch
    | apply same_attribute_on_audio; first [left; congruence | attribute_kept] ]).

Lemma same_attribute_registered {T : Type} (proj : Audio.HTMLAudioElement → T)
    (o : PreloadOptions) (id : Value) (p : Plugin) :
  same_attribute proj id p (snd (NativeAudioWeb.preload o p)).
Proof.
  destruct (decide (assetId o = id)) as [Heq|Hne].
  - intros asset Hreg. exists asset. split; [|done].
    rewrite preload_registered; [done|]. rewrite Heq. by apply elem_of_dom.
  - apply same_attribute_same_asset. by apply same_asset_preload.
Qed.

Lemma exec_same_volume (c : Call) (p : Plugin) (id : Value) :
  c ≠ Unload id → (∀ v, c ≠ SetVolume id v) →
  same_attribute Audio.volume id p (exec c p).
Proof.
  intros Hunload Hset.
  assert (Hrun : ∀ A (m : M A), always (same_attribute Audio.volume id) m →
            same_attribute Audio.volume id p (snd (m p)))
    by (intros A m Hm; apply Hm).
  destruct c; cbn [exec];
    try apply same_attribute_registered;
    try (apply Hrun; by apply always_isPreloaded; apply _).
  all: try (apply Hrun; unfold_methods; by repeat same_attribute_step).
  apply same_attribute_same_asset, (same_asset_unload id assetId0). congruence.
Qed.

Lemma exec_same_rate (c : Call) (p : Plugin) (id : Value) :
  c ≠ Unload id → (∀ r, c ≠ SetRate id r) →
  same_attribute Audio.playbackRate id p (exec c p).
Proof.
  intros Hunload Hset.
  assert (Hrun : ∀ A (m : M A), always (same_attribute Audio.playbackRate id) m →
            same_attribute Audio.playbackRate id p (snd (m p)))
    by (intros A m Hm; apply Hm).
  destruct c; cbn [exec];
    try apply same_attribute_registered;
    try (apply Hrun; by apply always_isPreloaded; apply _).
  all: try (apply Hrun; unfold_methods; by repeat same_attribute_step).
  apply same_attribute_same_asset, (same_asset_unload id assetId0). congruence.
Qed.

Lemma exec_same_src (c : Call) (p : Plugin) (id : Value) :
  c ≠ Unload id →
  same_attribute Audio.src id p (exec c p).
Proof.
  intros Hunload.
  assert (Hrun : ∀ A (m : M A), always (same_attribute Audio.src id) m →
            same_attribute Audio.src id p (snd (m p)))
    by (intros A m Hm; apply Hm).
  destruct c; cbn [exec];
    try apply same_attribute_registered;
    try (apply Hrun; by apply always_isPreloaded; apply _).
  all: try (apply Hrun; unfold_methods; by repeat same_attribute_step).
  apply same_attribute_same_asset, (same_asset_unload id assetId0). congruence.
Qed.

(** X3. An asset that is registered keeps its volume through every call
    except setVolume on it, its rate through every call except setRate on it,
    and its source through every call, as long as it is not unloaded: play,
    loop, stop, pause, resume, seeking, a failed preload under its identifier
    and the media events change none of them. *)
Theorem volume_rate_source_kept
    (c : Call) (p : Plugin) (id : Value) (asset : AudioAsset) :
  c ≠ Unload id →
  AUDIO_ASSET_BY_ASSET_ID p !! id = Some asset →
  ∃ asset', AUDIO_ASSET_BY_ASSET_ID (exec c p) !! id = Some asset' ∧
    ((∀ v, c ≠ SetVolume id v) →
       Audio.volume (audio asset') = Audio.volume (audio asset)) ∧
    ((∀ r, c ≠ SetRate id r) →
       Audio.playbackRate (audio asset') = Audio.playbackRate (audio asset)) ∧
    Audio.src (audio asset') = Audio.src (audio asset).
Proof.
  intros Hunload Hreg.
  destruct (exec_same_src c p id Hunload asset Hreg) as (asset' & Hreg' & Hsrc).
  exists asset'. split; [done|]. split; [|split; [|done]].
  - intros Hset.
    destruct (exec_same_volume c p id Hunload Hset asset Hreg) as (a2 & Hreg2 & Hvol).
    congruence.
  - intros Hset.
    destruct (exec_same_rate c p id Hunload Hset asset Hreg) as (a2 & Hreg2 & Hrate).
    congruence.
Qed.

Lemma volume_rate_source_kept_witness :
  Play (VString "b") None ≠ Unload (VString "b") ∧
  AUDIO_ASSET_BY_ASSET_ID loaded_two !! VString "b"
    = Some {| audio := Audio.with_volume (Q2Qc (1 # 2)) (prepared "y.mp3") |} ∧
  ∃ asset',
    AUDIO_ASSET_BY_ASSET_ID (exec (Play (VString "b") None) loaded_two) !! VString "b"
      = Some asset' ∧
    Audio.volume (audio asset') = Q2Qc (1 # 2) ∧
    Audio.playbackRate (audio asset') = 1%Qc ∧
    Audio.src (audio asset') = "y.mp3".
Proof.
  assert (H : Play (VString "b") None ≠ Unload (VString "b")) by discriminate.
  split; [exact H|]. split; [reflexivity|].
  destruct (volume_rate_source_kept (Play (VString "b") None) loaded_two (VString "b")
              {| audio := Audio.with_volume (Q2Qc (1 # 2)) (prepared "y.mp3") |}
              H eq_refl) as (asset' & Hreg & Hvol & Hrate & Hsrc).
  exists asset'. split; [exact Hreg|]. split; [|split; [|exact Hsrc]].
  - apply Hvol. discriminate.
  - apply Hrate. discriminate.
Defined.

(** ** The methods on a registered asset *)

Lemma getAudioAsset_cases (p : Plugin) (id : Value) :
  (∃ asset, is_identifier id = true ∧
            AUDIO_ASSET_BY_ASSET_ID p !! id = Some asset ∧
            NativeAudioWeb.getAudioAsset id p = (Return asset, p))
  ∨ (∃ e, NativeAudioWeb.getAudioAsset id p = (Throw e, p)).
Proof.
  destruct (is_identifier id) eqn:Hid.
  - destruct (AUDIO_ASSET_BY_ASSET_ID p !! id) as [asset|] eqn:Hreg.
    + left. exists asset. by rewrite (getAudioAsset_found p id asset).
    + right. eexists. by apply getAudioAsset_missing.
  - right. eexists. by apply getAudioAsset_invalid.
Qed.

Lemma pause_found (id : Value) (asset : AudioAsset) (p : Plugin) :
  is_identifier id = true →
  AUDIO_ASSET_BY_ASSET_ID p !! id = Some asset →
  NativeAudioWeb.pause id p = (Return tt, store id (Audio.pause (audio asset)) p).
Proof.
  intros Hid Hreg. unfold NativeAudioWeb.pause, mbind, M_bind.
  rewrite (getAudioAsset_found p id asset Hid Hreg).
  by rewrite (on_audio_found id asset p _ Hreg).
Qed.

Lemma resume_found (id : Value) (asset : AudioAsset) (p : Plugin) :
  is_identifier id = true →
  AUDIO_ASSET_BY_ASSET_ID p !! id = Some asset →
  NativeAudioWeb.resume id p =
    (Return tt, if Audio.paused (audio asset)
                then store id (Audio.play (audio asset)) p else p).
Proof.
  intros Hid Hreg. unfold NativeAudioWeb.resume, mbind, M_bind.
  rewrite (getAudioAsset_found p id asset Hid Hreg).
  destruct (Audio.paused (audio asset)); [|done].
  by rewrite (on_audio_found id asset p _ Hreg).
Qed.

Lemma setCurrentTime_found (id : Value) (asset : AudioAsset) (p : Plugin) (t : Number) :
  is_identifier id = true →
  AUDIO_ASSET_BY_ASSET_ID p !! id = Some asset →
  NativeAudioWeb.setCurrentTime id t p =
    match Audio.set_currentTime t (audio asset) with
    | Return a => (Return tt, store id a p)
    | Throw e => (Throw e, p)
    end.
Proof.
  intros Hid Hreg. unfold NativeAudioWeb.setCurrentTime, mbind, M_bind.
  rewrite (getAudioAsset_found p id asset Hid Hreg).
  by rewrite (on_audio_found id asset p _ Hreg).
Qed.

Lemma getCurrentTime_found (id : Value) (asset : AudioAsset) (p : Plugin) :
  is_identifier id = true →
  AUDIO_ASSET_BY_ASSET_ID p !! id = Some asset →
  NativeAudioWeb.getCurrentTime id p = (Return (Audio.currentTime (audio asset)), p).
Proof.
  intros Hid Hreg. unfold NativeAudioWeb.getCurrentTime, mbind, M_bind.
  by rewrite (getAudioAsset_found p id asset Hid Hreg).
Qed.

Lemma isPlaying_found (id : Value) (asset : AudioAsset) (p : Plugin) :
  is_identifier id = true →
  AUDIO_ASSET_BY_ASSET_ID p !! id = Some asset →
  NativeAudioWeb.isPlaying id p = (Return (negb (Audio.paused (audio asset))), p).
Proof.
  intros Hid Hreg. unfold NativeAudioWeb.isPlaying, mbind, M_bind.
  by rewrite (getAudioAsset_found p id asset Hid Hreg).
Qed.

(** Every method that looks its asset up throws what the lookup throws, and
    does nothing else. *)
Lemma lookup_throw (id : Value) (e : Thrown) (p : Plugin) :
  NativeAudioWeb.getAudioAsset id p = (Throw e, p) →
  (∀ t, NativeAudioWeb.play id t p = (Throw e, p)) ∧
  NativeAudioWeb.loop id p = (Throw e, p) ∧
  NativeAudioWeb.pause id p = (Throw e, p) ∧
  NativeAudioWeb.resume id p = (Throw e, p) ∧
  NativeAudioWeb.stop id p = (Throw e, p) ∧
  NativeAudioWeb.unload id p = (Throw e, p) ∧
  (∀ t, NativeAudioWeb.setCurrentTime id t p = (Throw e, p)) ∧
  NativeAudioWeb.getCurrentTime id p = (Throw e, p) ∧
  NativeAudioWeb.getDuration id p = (Throw e, p) ∧
  (∀ n, NativeAudioWeb.setVolume id (VNumber n) p = (Throw e, p)) ∧
  (∀ n, NativeAudioWeb.setRate id (VNumber n) p = (Throw e, p)) ∧
  NativeAudioWeb.isPlaying id p = (Throw e, p).
Proof.
  intros Hget.
  assert (Hstop : NativeAudioWeb.stop id p = (Throw e, p)).
  { unfold NativeAudioWeb.stop, mbind, M_bind. by rewrite Hget. }
  repeat split; intros;
    try (unfold NativeAudioWeb.play, NativeAudioWeb.loop, NativeAudioWeb.pause,
           NativeAudioWeb.resume, NativeAudioWeb.setCurrentTime,
           NativeAudioWeb.getCurrentTime, NativeAudioWeb.getDuration,
           NativeAudioWeb.setVolume, NativeAudioWeb.setRate,
           NativeAudioWeb.isPlaying, mbind, M_bind; by rewrite Hget).
  - exact Hstop.
  - unfold NativeAudioWeb.unload, mbind, M_bind. by rewrite Hstop.
Qed.

(** ** A call that throws *)

Lemma preload_throw_unchanged (o : PreloadOptions) (p : Plugin) :
  is_throw (fst (NativeAudioWeb.preload o p)) = true →
  snd (NativeAudioWeb.preload o p) = p.
Proof.
  unfold NativeAudioWeb.preload. unfold_M.
  case_bool_decide; [done|].
  destruct (assetPath o) as [path|]; [|done].
  destruct (negb (truthy (length_of (VString path)))); [done|].
  by destruct (apply_volume _ _).
Qed.

Lemma failing_call_unchanged (c : Call) (p : Plugin) :
  throws c p = true →
  exec c p = p ∨ (∃ id t, c = Play id t ∧ exec c p = exec (Stop id) p).
Proof.
  destruct c; cbn [throws exec]; try discriminate.
  - intros H. left. by apply preload_throw_unchanged.
  - intros _. left. symmetry. apply (always_isPreloaded eq).
  - (* play *)
    intros H.
    destruct (getAudioAsset_cases p assetId0) as [(asset & Hid & Hreg & Hget)|[e Hget]].
    + right. exists assetId0, time. split; [done|].
      rewrite (stop_found assetId0 asset p Hid Hreg).
      destruct time as [[| |q]|].
      * by rewrite (play_non_finite assetId0 asset p NaN).
      * by rewrite (play_non_finite assetId0 asset p (Infinity negative)).
      * change (Some (Finite q)) with (Finite <$> Some q) in H.
        by rewrite (play_found assetId0 asset p (Some q)) in H.
      * change (@None Number) with (Finite <$> @None Qc) in H.
        by rewrite (play_found assetId0 asset p None) in H.
    + left. by rewrite (proj1 (lookup_throw _ _ _ Hget)).
  - intros H.
    destruct (getAudioAsset_cases p assetId0) as [(asset & Hid & Hreg & Hget)|[e Hget]].
    + by rewrite (loop_found assetId0 asset p) in H.
    + left. destruct (lookup_throw _ _ _ Hget) as (_ & -> & _). done.
  - intros H.
    destruct (getAudioAsset_cases p assetId0) as [(asset & Hid & Hreg & Hget)|[e Hget]].
    + by rewrite (pause_found assetId0 asset p) in H.
    + left. destruct (lookup_throw _ _ _ Hget) as (_ & _ & -> & _). done.
  - intros H.
    destruct (getAudioAsset_cases p assetId0) as [(asset & Hid & Hreg & Hget)|[e Hget]].
    + by rewrite (resume_found assetId0 asset p) in H.
    + left. destruct (lookup_throw _ _ _ Hget) as (_ & _ & _ & -> & _). done.
  - intros H.
    destruct (getAudioAsset_cases p assetId0) as [(asset & Hid & Hreg & Hget)|[e Hget]].
    + by rewrite (stop_found assetId0 asset p) in H.
    + left. destruct (lookup_throw _ _ _ Hget) as (_ & _ & _ & _ & -> & _). done.
  - intros H.
    destruct (getAudioAsset_cases p assetId0) as [(asset & Hid & Hreg & Hget)|[e Hget]].
    + by rewrite (unload_found assetId0 asset p) in H.
    + left. destruct (lookup_throw _ _ _ Hget) as (_ & _ & _ & _ & _ & -> & _). done.
  - intros H. left.
    destruct (getAudioAsset_cases p assetId0) as [(asset & Hid & Hreg & Hget)|[e Hget]].
    + rewrite (setCurrentTime_found assetId0 asset p time Hid Hreg) in *.
      by destruct (Audio.set_currentTime time (audio asset)).
    + destruct (lookup_throw _ _ _ Hget) as (_ & _ & _ & _ & _ & _ & Hthrow & _).
      by rewrite Hthrow.
  - intros _. left. unfold NativeAudioWeb.getCurrentTime, mbind, M_bind.
    pose proof (getAudioAsset_state p assetId0) as Hst.
    by destruct (NativeAudioWeb.getAudioAsset assetId0 p) as [[a|e] p']; cbn in *; subst.
  - intros _. left. unfold NativeAudioWeb.getDuration, mbind, M_bind.
    pose proof (getAudioAsset_state p assetId0) as Hst.
    destruct (NativeAudioWeb.getAudioAsset assetId0 p) as [[a|e] p']; cbn in *; subst;
      [|done].
    by destruct (isNaN _); [|destruct (negb _)].
  - intros H. left. destruct volume0 as [| |b|n|s0]; try done.
    destruct (getAudioAsset_cases p assetId0) as [(asset & Hid & Hreg & Hget)|[e Hget]].
    + rewrite (setVolume_found assetId0 asset p n Hid Hreg) in *.
      by destruct (Audio.set_volume n (audio asset)).
    + destruct (lookup_throw _ _ _ Hget) as (_&_&_&_&_&_&_&_&_& Hthrow & _).
      by rewrite Hthrow.
  - intros H. left. destruct rate as [| |b|n|s0]; try done.
    destruct (getAudioAsset_cases p assetId0) as [(asset & Hid & Hreg & Hget)|[e Hget]].
    + rewrite (setRate_found assetId0 asset p n Hid Hreg) in *.
      by destruct (Audio.set_playbackRate n (audio asset)).
    + destruct (lookup_throw _ _ _ Hget) as (_&_&_&_&_&_&_&_&_&_& Hthrow & _).
      by rewrite Hthrow.
  - intros _. left. unfold NativeAudioWeb.isPlaying, mbind, M_bind.
    pose proof (getAudioAsset_state p assetId0) as Hst.
    by destruct (NativeAudioWeb.getAudioAsset assetId0 p) as [[a|e] p']; cbn in *; subst.
  - intros _. by left.
Qed.

(** X4. A method that does not start the element (every method but play,
    loop and resume, which end in audio.play()) changes nothing when it
    throws: whatever the call and the plugin, if the call throws, the plugin
    afterwards is exactly the plugin before.  The tests on the identifier,
    the registration, the path and the type of the volume or rate come before
    any change, and a value the element refuses leaves the element as it
    was. *)
Theorem failing_call_changes_nothing (c : Call) (p : Plugin) :
  starts_playback c = false →
  throws c p = true →
  exec c p = p.
Proof.
  intros Hc H.
  by destruct (failing_call_unchanged c p H) as [Heq|(id & t & -> & _)].
Qed.

Lemma failing_call_changes_nothing_witness :
  starts_playback (SetVolume (VString "a") (VNumber (Finite (Q2Qc 2)))) = false ∧
  throws (SetVolume (VString "a") (VNumber (Finite (Q2Qc 2)))) loaded_two = true ∧
  exec (SetVolume (VString "a") (VNumber (Finite (Q2Qc 2)))) loaded_two = loaded_two.
Proof.
  split; [reflexivity|]. split; [reflexivity|].
  apply failing_call_changes_nothing; reflexivity.
Defined.

(** ** pause, resume and seeking *)

Lemma store_same (id : Value) (asset : AudioAsset) (p : Plugin) :
  AUDIO_ASSET_BY_ASSET_ID p !! id = Some asset →
  store id (audio asset) p = p.
Proof.
  intros Hreg. destruct p as [assets ns], asset as [a]. unfold store. cbn in *.
  f_equal. by apply insert_id.
Qed.

Lemma play_pause_element (a : Audio.HTMLAudioElement) :
  Audio.paused a = false → Audio.play (Audio.pause a) = a.
Proof. destruct a. cbn. by intros ->. Qed.

(** X5. Pausing a playing asset and resuming it is a round trip: pause
    returns and leaves the asset paused at the position and with the loop flag
    it had (isPlaying answers false, getCurrentTime the same position), and
    resume then brings the plugin back to exactly the state before the
    pause. *)
Theorem pause_resume_round_trip (p : Plugin) (id : Value) (asset : AudioAsset) :
  is_identifier id = true →
  AUDIO_ASSET_BY_ASSET_ID p !! id = Some asset →
  Audio.paused (audio asset) = false →
  ∃ p1 a1,
    NativeAudioWeb.pause id p = (Return tt, p1) ∧
    AUDIO_ASSET_BY_ASSET_ID p1 !! id = Some {| audio := a1 |} ∧
    Audio.loop a1 = Audio.loop (audio asset) ∧
    NativeAudioWeb.isPlaying id p1 = (Return false, p1) ∧
    NativeAudioWeb.getCurrentTime id p1
      = (Return (Audio.currentTime (audio asset)), p1) ∧
    NativeAudioWeb.resume id p1 = (Return tt, p).
Proof.
  intros Hid Hreg Hplaying.
  exists (store id (Audio.pause (audio asset)) p), (Audio.pause (audio asset)).
  pose proof (lookup_store_eq id (Audio.pause (audio asset)) p) as Hreg1.
  split; [by apply pause_found|]. split; [done|]. split; [done|].
  split; [by rewrite (isPlaying_found id _ _ Hid Hreg1)|].
  split; [by rewrite (getCurrentTime_found id _ _ Hid Hreg1)|].
  rewrite (resume_found id _ _ Hid Hreg1). cbn.
  rewrite store_store, play_pause_element by done. by rewrite store_same.
Qed.

Lemma pause_resume_round_trip_witness :
  is_identifier (VString "a") = true ∧
  AUDIO_ASSET_BY_ASSET_ID looping_a !! VString "a"
    = Some {| audio := Audio.play (Audio.set_loop true (stopped (prepared "x.mp3"))) |} ∧
  ∃ p1,
    NativeAudioWeb.pause (VString "a") looping_a = (Return tt, p1) ∧
    NativeAudioWeb.isPlaying (VString "a") p1 = (Return false, p1) ∧
    NativeAudioWeb.resume (VString "a") p1 = (Return tt, looping_a).
Proof.
  split; [reflexivity|]. split; [reflexivity|].
  destruct (pause_resume_round_trip looping_a (VString "a")
              {| audio := Audio.play (Audio.set_loop true (stopped (prepared "x.mp3"))) |}
              eq_refl eq_refl eq_refl)
    as (p1 & a1 & Hpause & _ & _ & Hplaying & _ & Hresume).
  exists p1. repeat split; assumption.
Defined.

(** X6. resume starts a paused element but adds no completion listener: on
    an asset that is paused, does not loop and has no listener (as after
    preload), resume makes isPlaying answer true, and the natural completion
    of that playback notifies nothing. *)
Theorem resume_notifies_no_completion (p : Plugin) (id : Value) (asset : AudioAsset) :
  is_identifier id = true →
  AUDIO_ASSET_BY_ASSET_ID p !! id = Some asset →
  Audio.paused (audio asset) = true →
  Audio.loop (audio asset) = false →
  Audio.ended_listeners (audio asset) = [] →
  fst (NativeAudioWeb.isPlaying id (run [Resume id] p)) = Return true ∧
  notified (run [Resume id; Ended id] p) = notified p ∧
  fst (NativeAudioWeb.isPlaying id (run [Resume id; Ended id] p)) = Return false.
Proof.
  intros Hid Hreg Hpaused Hloop Hls. cbn [run foldl exec].
  rewrite (resume_found id asset p Hid Hreg), Hpaused. cbn [snd].
  pose proof (lookup_store_eq id (Audio.play (audio asset)) p) as Hreg1.
  split; [by rewrite (isPlaying_found id _ _ Hid Hreg1)|].
  split.
  - rewrite (ended_notifies_every_listener id _ _ Hreg1) by done.
    cbn. rewrite Hls. cbn. by rewrite app_nil_r.
  - unfold Media.ended, mbind, M_bind, registry. rewrite Hreg1. cbn [audio].
    replace (Audio.paused (Audio.play (audio asset)) || Audio.loop (Audio.play (audio asset)))
      with false by (cbn; by rewrite Hloop).
    rewrite on_audio_store, dispatch_notified. cbn [snd].
    unfold NativeAudioWeb.isPlaying, mbind, M_bind, NativeAudioWeb.getAudioAsset.
    unfold_M. apply checkAssetId_identifier in Hid. rewrite Hid. cbn.
    by rewrite lookup_insert_eq.
Qed.

Lemma resume_notifies_no_completion_witness :
  is_identifier (VString "a") = true ∧
  AUDIO_ASSET_BY_ASSET_ID loaded_a !! VString "a" = Some {| audio := prepared "x.mp3" |} ∧
  notified (run [Resume (VString "a"); Ended (VString "a")] loaded_a) = notified loaded_a.
Proof.
  split; [reflexivity|]. split; [reflexivity|].
  apply (resume_notifies_no_completion loaded_a (VString "a")
           {| audio := prepared "x.mp3" |}); reflexivity.
Defined.

(** X7. setCurrentTime hands the time to the element's currentTime and
    does nothing else.  When the element accepts the time, as it does every
    finite one, the call returns and the asset's element is the one the
    assignment leaves, every other asset and the notifications being as
    before: that element is paused or playing as before (isPlaying answers
    what it answered), with the loop flag, the listeners, the volume, the
    rate, the source and the duration it had, and getCurrentTime returns its
    position.  When the element refuses the time, as it does one that is not
    finite with a TypeError, the call throws what the element throws and the
    plugin is unchanged. *)
Theorem setCurrentTime_changes_position_only
    (p : Plugin) (id : Value) (asset : AudioAsset) :
  is_identifier id = true →
  AUDIO_ASSET_BY_ASSET_ID p !! id = Some asset →
  (∀ (t : Number) (a1 : Audio.HTMLAudioElement),
     Audio.set_currentTime t (audio asset) = Return a1 →
     NativeAudioWeb.setCurrentTime id t p = (Return tt, store id a1 p) ∧
     Audio.paused a1 = Audio.paused (audio asset) ∧
     Audio.loop a1 = Audio.loop (audio asset) ∧
     Audio.ended_listeners a1 = Audio.ended_listeners (audio asset) ∧
     Audio.volume a1 = Audio.volume (audio asset) ∧
     Audio.playbackRate a1 = Audio.playbackRate (audio asset) ∧
     Audio.src a1 = Audio.src (audio asset) ∧
     Audio.duration a1 = Audio.duration (audio asset) ∧
     NativeAudioWeb.getCurrentTime id (store id a1 p)
       = (Return (Audio.currentTime a1), store id a1 p) ∧
     fst (NativeAudioWeb.isPlaying id (store id a1 p))
       = fst (NativeAudioWeb.isPlaying id p)) ∧
  (∀ (t : Number) (e : Thrown),
     Audio.set_currentTime t (audio asset) = Throw e →
     NativeAudioWeb.setCurrentTime id t p = (Throw e, p)) ∧
  (∀ t : Qc, ∃ p1, NativeAudioWeb.setCurrentTime id (Finite t) p = (Return tt, p1)) ∧
  (∀ t : Number, isFinite t = false →
     NativeAudioWeb.setCurrentTime id t p = (Throw TypeError, p)).
Proof.
  intros Hid Hreg. split; [|split; [|split]].
  - intros t a1 Hset.
    pose proof (lookup_store_eq id a1 p) as Hreg1.
    split; [by rewrite (setCurrentTime_found id asset p _ Hid Hreg), Hset|].
    assert (Ha1 : ∃ q, a1 = Audio.with_currentTime q (audio asset)).
    { destruct t as [| |q]; try done. exists q. by injection Hset as <-. }
    destruct Ha1 as [q ->].
    do 7 (split; [reflexivity|]).
    split; [by rewrite (getCurrentTime_found id _ _ Hid Hreg1)|].
    by rewrite (isPlaying_found id _ _ Hid Hreg1), (isPlaying_found id _ _ Hid Hreg).
  - intros t e Hset. by rewrite (setCurrentTime_found id asset p _ Hid Hreg), Hset.
  - intros t. eexists. by rewrite (setCurrentTime_found id asset p _ Hid Hreg).
  - intros t Ht. rewrite (setCurrentTime_found id asset p _ Hid Hreg). by destruct t.
Qed.

Lemma setCurrentTime_changes_position_only_witness :
  is_identifier (VString "a") = true ∧
  AUDIO_ASSET_BY_ASSET_ID looping_a !! VString "a"
    = Some {| audio := Audio.play (Audio.set_loop true (stopped (prepared "x.mp3"))) |} ∧
  (∃ p1, NativeAudioWeb.setCurrentTime (VString "a") (Finite (Q2Qc 7)) looping_a
           = (Return tt, p1)) ∧
  NativeAudioWeb.setCurrentTime (VString "a") NaN looping_a = (Throw TypeError, looping_a).
Proof.
  split; [reflexivity|]. split; [reflexivity|].
  destruct (setCurrentTime_changes_position_only looping_a (VString "a")
              {| audio := Audio.play (Audio.set_loop true (stopped (prepared "x.mp3"))) |}
              eq_refl eq_refl) as (_ & _ & Hfinite & Hrefused).
  split; [exact (Hfinite (Q2Qc 7))|]. apply Hrefused. reflexivity.
Defined.

(** ** What isPlaying reports *)

Lemma ended_found (id : Value) (asset : AudioAsset) (p : Plugin) :
  AUDIO_ASSET_BY_ASSET_ID p !! id = Some asset →
  Audio.paused (audio asset) = false →
  Audio.loop (audio asset) = false →
  snd (Media.ended id p) =
    {| AUDIO_ASSET_BY_ASSET_ID :=
         <[id := {| audio :=
                      Audio.with_listeners
                        (filter (fun l => Audio.once l = false)
                           (Audio.ended_listeners (audio asset)))
                        (Audio.with_paused true (audio asset)) |}]>
           (AUDIO_ASSET_BY_ASSET_ID p);
       notified :=
         (notified p
          ++ map (fun l => ("complete", Audio.captured l))
               (Audio.ended_listeners (audio asset)))%list |}.
Proof.
  intros Hreg Hpaused Hloop. unfold Media.ended, mbind, M_bind, registry.
  rewrite Hreg, Hpaused, Hloop. cbn [orb].
  rewrite (on_audio_found id asset p _ Hreg). by rewrite dispatch_notified.
Qed.

(** X8. isPlaying follows the calls: on a registered asset it answers true
    right after play (with a finite or omitted time) and after loop, false
    right after pause and after stop, and false again once a playback started
    by play has reached its natural end. *)
Theorem isPlaying_follows_calls
    (p : Plugin) (id : Value) (asset : AudioAsset) (time : option Qc) :
  is_identifier id = true →
  AUDIO_ASSET_BY_ASSET_ID p !! id = Some asset →
  fst (NativeAudioWeb.isPlaying id (run [Play id (Finite <$> time)] p)) = Return true ∧
  fst (NativeAudioWeb.isPlaying id (run [Loop id] p)) = Return true ∧
  fst (NativeAudioWeb.isPlaying id (run [Pause id] p)) = Return false ∧
  fst (NativeAudioWeb.isPlaying id (run [Stop id] p)) = Return false ∧
  fst (NativeAudioWeb.isPlaying id (run [Play id (Finite <$> time); Ended id] p))
    = Return false.
Proof.
  intros Hid Hreg. cbn [run foldl exec].
  rewrite (play_found id asset p time Hid Hreg), (loop_found id asset p Hid Hreg),
    (pause_found id asset p Hid Hreg), (stop_found id asset p Hid Hreg).
  cbn [snd].
  repeat split;
    try by rewrite (isPlaying_found id _ _ Hid (lookup_store_eq _ _ _)).
  rewrite (ended_found id _ _ (lookup_store_eq _ _ _)) by done.
  erewrite (isPlaying_found id _ _ Hid); [|cbn; apply lookup_insert_eq].
  reflexivity.
Qed.

Lemma isPlaying_follows_calls_witness :
  is_identifier (VString "a") = true ∧
  AUDIO_ASSET_BY_ASSET_ID loaded_a !! VString "a" = Some {| audio := prepared "x.mp3" |} ∧
  fst (NativeAudioWeb.isPlaying (VString "a")
         (run [Play (VString "a") (Some (Finite (Q2Qc 3)))] loaded_a)) = Return true ∧
  fst (NativeAudioWeb.isPlaying (VString "a") (run [Stop (VString "a")] loaded_a))
    = Return false.
Proof.
  split; [reflexivity|]. split; [reflexivity|].
  destruct (isPlaying_follows_calls loaded_a (VString "a")
              {| audio := prepared "x.mp3" |} (Some (Q2Qc 3)) eq_refl eq_refl)
    as (Hplay & _ & _ & Hstop & _).
  split; assumption.
Defined.

(** ** stop absorbs what came before *)

Lemma stopped_stopped (a : Audio.HTMLAudioElement) : stopped (stopped a) = stopped a.
Proof. by destruct a. Qed.

Lemma stopped_pause (a : Audio.HTMLAudioElement) : stopped (Audio.pause a) = stopped a.
Proof. by destruct a. Qed.

Lemma stopped_loop (a : Audio.HTMLAudioElement) :
  stopped (Audio.play (Audio.set_loop true (stopped a))) = stopped a.
Proof. by destruct a. Qed.

Lemma stopped_seek (t : Qc) (a : Audio.HTMLAudioElement) :
  stopped (Audio.with_currentTime t a) = stopped a.
Proof. by destruct a. Qed.

Lemma stopped_resume (a : Audio.HTMLAudioElement) : stopped (Audio.play a) = stopped a.
Proof. by destruct a. Qed.

(** X9. stop wipes out what loop, pause, resume and seeking did, and a second
    stop adds nothing: on a registered asset, each of these calls followed by
    stop leaves the plugin exactly as stop alone does. *)
Theorem stop_absorbs (p : Plugin) (id : Value) (asset : AudioAsset) :
  is_identifier id = true →
  AUDIO_ASSET_BY_ASSET_ID p !! id = Some asset →
  run [Stop id; Stop id] p = run [Stop id] p ∧
  run [Loop id; Stop id] p = run [Stop id] p ∧
  run [Pause id; Stop id] p = run [Stop id] p ∧
  run [Resume id; Stop id] p = run [Stop id] p ∧
  (∀ t, run [SetCurrentTime id t; Stop id] p = run [Stop id] p).
Proof.
  intros Hid Hreg. cbn [run foldl exec].
  rewrite (loop_found id asset p Hid Hreg), (pause_found id asset p Hid Hreg),
    (stop_found id asset p Hid Hreg), (resume_found id asset p Hid Hreg).
  cbn [snd].
  repeat split.
  - rewrite (stop_found id _ _ Hid (lookup_store_eq _ _ _)). cbn.
    by rewrite store_store, stopped_stopped.
  - rewrite (stop_found id _ _ Hid (lookup_store_eq _ _ _)). cbn.
    by rewrite store_store, stopped_loop.
  - rewrite (stop_found id _ _ Hid (lookup_store_eq _ _ _)). cbn.
    by rewrite store_store, stopped_pause.
  - destruct (Audio.paused (audio asset)).
    + rewrite (stop_found id _ _ Hid (lookup_store_eq _ _ _)). cbn.
      by rewrite store_store, stopped_resume.
    + by rewrite (stop_found id asset p Hid Hreg).
  - intros t. rewrite (setCurrentTime_found id asset p t Hid Hreg).
    destruct t as [| |q]; cbn; try by rewrite (stop_found id asset p Hid Hreg).
    rewrite (stop_found id _ _ Hid (lookup_store_eq _ _ _)). cbn.
    by rewrite store_store, stopped_seek.
Qed.

Lemma stop_absorbs_witness :
  is_identifier (VString "a") = true ∧
  AUDIO_ASSET_BY_ASSET_ID loaded_a !! VString "a" = Some {| audio := prepared "x.mp3" |} ∧
  run [Loop (VString "a"); Stop (VString "a")] loaded_a = run [Stop (VString "a")] loaded_a.
Proof.
  split; [reflexivity|]. split; [reflexivity|].
  apply (stop_absorbs loaded_a (VString "a") {| audio := prepared "x.mp3" |});
    reflexivity.
Defined.

(** ** After unload *)

(** X10. Once unload has returned, the identifier is as if it had never been
    registered: isPreloaded answers false, play, stop and a second unload fail
    with AssetNotFound, and none of them changes the plugin. *)
Theorem unloaded_asset_is_gone (p : Plugin) (id : Value) (asset : AudioAsset) :
  is_identifier id = true →
  AUDIO_ASSET_BY_ASSET_ID p !! id = Some asset →
  ∃ p1,
    NativeAudioWeb.unload id p = (Return tt, p1) ∧
    (∀ o, assetId o = id → NativeAudioWeb.isPreloaded o p1 = (Return false, p1)) ∧
    (∀ t, NativeAudioWeb.play id t p1 = (Throw (AssetNotFound id), p1)) ∧
    NativeAudioWeb.stop id p1 = (Throw (AssetNotFound id), p1) ∧
    NativeAudioWeb.unload id p1 = (Throw (AssetNotFound id), p1).
Proof.
  intros Hid Hreg. eexists. split; [exact (unload_found id asset p Hid Hreg)|].
  match goal with |- context [NativeAudioWeb.stop id ?q] => set (p1 := q) end.
  assert (Hget : NativeAudioWeb.getAudioAsset id p1 = (Throw (AssetNotFound id), p1)).
  { apply getAudioAsset_missing; [done|]. apply lookup_delete_eq. }
  destruct (lookup_throw id _ p1 Hget) as (Hplay & _ & _ & _ & Hstop & Hunload & _).
  split; [|by repeat split].
  intros o <-. unfold NativeAudioWeb.isPreloaded. by rewrite Hget.
Qed.

Lemma unloaded_asset_is_gone_witness :
  is_identifier (VString "a") = true ∧
  AUDIO_ASSET_BY_ASSET_ID loaded_a !! VString "a" = Some {| audio := prepared "x.mp3" |} ∧
  ∃ p1,
    NativeAudioWeb.unload (VString "a") loaded_a = (Return tt, p1) ∧
    NativeAudioWeb.unload (VString "a") p1 = (Throw (AssetNotFound (VString "a")), p1).
Proof.
  split; [reflexivity|]. split; [reflexivity|].
  destruct (unloaded_asset_is_gone loaded_a (VString "a")
              {| audio := prepared "x.mp3" |} eq_refl eq_refl)
    as (p1 & H1 & _ & _ & _ & H2).
  exists p1. split; assumption.
Defined.

(** ** What preload looks at and what it registers *)

Lemma preload_cases (o : PreloadOptions) (p : Plugin) :
  NativeAudioWeb.preload o p =
    if bool_decide (is_Some (AUDIO_ASSET_BY_ASSET_ID p !! assetId o))
    then (Throw DuplicateAsset, p)
    else match assetPath o with
         | None => (Throw MissingAssetPath, p)
         | Some path =>
             if String.eqb path "" then (Throw MissingAssetPath, p)
             else match apply_volume (volume o) (prepared path) with
                  | Return a => (Return tt, store (assetId o) a p)
                  | Throw e => (Throw e, p)
                  end
         end.
Proof.
  case_bool_decide as Hreg.
  - apply preload_registered. by apply elem_of_dom.
  - assert (AUDIO_ASSET_BY_ASSET_ID p !! assetId o = None) as Hnone.
    { destruct (AUDIO_ASSET_BY_ASSET_ID p !! assetId o) eqn:E; [|done].
      destruct Hreg. by eexists. }
    destruct (assetPath o) as [path|] eqn:Hpath.
    + destruct (String.eqb path "") eqn:Hempty.
      * apply String.eqb_eq in Hempty as ->. apply preload_no_path; auto.
      * apply String.eqb_neq in Hempty. by apply preload_fresh.
    + apply preload_no_path; auto.
Qed.

(** X11. On the web isUrl plays no role: two preloads that agree on the
    identifier, the path and the volume end the same way and leave the same
    plugin, whatever their isUrl. *)
Theorem preload_ignores_isUrl (o1 o2 : PreloadOptions) (p : Plugin) :
  assetId o1 = assetId o2 →
  assetPath o1 = assetPath o2 →
  volume o1 = volume o2 →
  NativeAudioWeb.preload o1 p = NativeAudioWeb.preload o2 p.
Proof.
  intros Hid Hpath Hvol. rewrite !preload_cases. by rewrite Hid, Hpath, Hvol.
Qed.

Lemma preload_ignores_isUrl_witness :
  NativeAudioWeb.preload asset_b loaded_a
    = NativeAudioWeb.preload
        {| assetId := VString "b"; assetPath := Some "y.mp3"; isUrl := Some false;
           volume := Some (Finite (Q2Qc (1 # 2))) |} loaded_a.
Proof.
  apply (preload_ignores_isUrl asset_b
           {| assetId := VString "b"; assetPath := Some "y.mp3"; isUrl := Some false;
              volume := Some (Finite (Q2Qc (1 # 2))) |} loaded_a); reflexivity.
Defined.

Lemma apply_volume_keeps (v : option Number) (a a' : Audio.HTMLAudioElement) :
  apply_volume v a = Return a' →
  Audio.src a' = Audio.src a ∧ Audio.paused a' = Audio.paused a ∧
  Audio.loop a' = Audio.loop a ∧ Audio.autoplay a' = Audio.autoplay a ∧
  Audio.currentTime a' = Audio.currentTime a ∧
  Audio.playbackRate a' = Audio.playbackRate a ∧
  Audio.duration a' = Audio.duration a ∧
  Audio.ended_listeners a' = Audio.ended_listeners a ∧
  (Audio.volume a' = Audio.volume a ∨
     v = Some (Finite (Audio.volume a')) ∧ within 0 1 (Audio.volume a') = true).
Proof.
  unfold apply_volume, Audio.set_volume, Audio.to_double, mbind, Outcome_bind.
  intros H. repeat case_match; simplify_eq; cbn; repeat split; auto.
Qed.

Lemma preload_registry (o : PreloadOptions) (p : Plugin) :
  snd (NativeAudioWeb.preload o p) = p
  ∨ ∃ a, snd (NativeAudioWeb.preload o p) = store (assetId o) a p
         ∧ Audio.ended_listeners a = [].
Proof.
  rewrite preload_cases. case_bool_decide; [by left|].
  destruct (assetPath o) as [path|]; [|by left].
  destruct (String.eqb path ""); [by left|].
  destruct (apply_volume (volume o) (prepared path)) as [a|e] eqn:Hvol; [|by left].
  right. exists a. split; [done|].
  by destruct (apply_volume_keeps _ _ _ Hvol) as (_ & _ & _ & _ & _ & _ & _ & -> & _).
Qed.

(** X12. A preload that returns has registered, under its identifier, an
    element for exactly the path it was given: paused, not looping, at
    position 0, at rate 1, without listener, its duration not known yet, and
    with volume 1 or the volume of the call, which is then within [0, 1].  The
    identifier was free and the path not empty, every other asset is as
    before and nothing was notified. *)
Theorem preload_postcondition (o : PreloadOptions) (p p' : Plugin) :
  NativeAudioWeb.preload o p = (Return tt, p') →
  AUDIO_ASSET_BY_ASSET_ID p !! assetId o = None ∧
  ∃ path a,
    assetPath o = Some path ∧ path ≠ "" ∧
    AUDIO_ASSET_BY_ASSET_ID p' !! assetId o = Some {| audio := a |} ∧
    Audio.src a = path ∧
    Audio.paused a = true ∧ Audio.loop a = false ∧ Audio.autoplay a = false ∧
    Audio.currentTime a = 0%Qc ∧ Audio.playbackRate a = 1%Qc ∧
    Audio.duration a = NaN ∧ Audio.ended_listeners a = [] ∧
    (Audio.volume a = 1%Qc ∨
       volume o = Some (Finite (Audio.volume a)) ∧ within 0 1 (Audio.volume a) = true) ∧
    (∀ id, id ≠ assetId o →
       AUDIO_ASSET_BY_ASSET_ID p' !! id = AUDIO_ASSET_BY_ASSET_ID p !! id) ∧
    notified p' = notified p.
Proof.
  rewrite preload_cases. case_bool_decide as Hreg; [done|].
  destruct (assetPath o) as [path|] eqn:Hpath; [|done].
  destruct (String.eqb path "") eqn:Hempty; [done|].
  destruct (apply_volume (volume o) (prepared path)) as [a|e] eqn:Hvol; [|done].
  intros [= <-]. split.
  { destruct (AUDIO_ASSET_BY_ASSET_ID p !! assetId o) eqn:E; [|done].
    destruct Hreg. by eexists. }
  exists path, a. apply String.eqb_neq in Hempty.
  destruct (apply_volume_keeps _ _ _ Hvol)
    as (Hsrc & Hpaused & Hloop & Hauto & Htime & Hrate & Hdur & Hls & Hv).
  split; [done|]. split; [done|]. split; [apply lookup_store_eq|].
  unfold prepared in *; cbn in *.
  repeat split; try done.
  intros id Hne. by apply lookup_insert_ne.
Qed.

Lemma preload_postcondition_witness :
  NativeAudioWeb.preload asset_b loaded_a
    = (Return tt,
       store (VString "b") (Audio.with_volume (Q2Qc (1 # 2)) (prepared "y.mp3")) loaded_a) ∧
  ∃ path a,
    assetPath asset_b = Some path ∧
    AUDIO_ASSET_BY_ASSET_ID
      (store (VString "b") (Audio.with_volume (Q2Qc (1 # 2)) (prepared "y.mp3")) loaded_a)
      !! VString "b" = Some {| audio := a |} ∧
    Audio.src a = path ∧ Audio.paused a = true.
Proof.
  assert (H : NativeAudioWeb.preload asset_b loaded_a
    = (Return tt,
       store (VString "b") (Audio.with_volume (Q2Qc (1 # 2)) (prepared "y.mp3")) loaded_a))
    by reflexivity.
  split; [exact H|].
  destruct (preload_postcondition _ _ _ H)
    as (_ & path & a & Hpath & _ & Hreg & Hsrc & Hpaused & _).
  exists path, a. repeat split; assumption.
Defined.

(** ** Assets registered under a value that is no identifier *)

Lemma unload_invalid (id : Value) (p : Plugin) :
  is_identifier id = false →
  NativeAudioWeb.unload id p =
    (Throw (if String.eqb (typeof id) "string" then NoAssetIdProvided
            else AssetIdNotString), p).
Proof.
  intros Hid. pose proof (getAudioAsset_invalid p id Hid) as Hget.
  by destruct (lookup_throw _ _ _ Hget) as (_ & _ & _ & _ & _ & -> & _).
Qed.

Lemma run_invalid_registered (cs : list Call) (p : Plugin) (id : Value) :
  is_identifier id = false →
  id ∈ dom (AUDIO_ASSET_BY_ASSET_ID p) →
  id ∈ dom (AUDIO_ASSET_BY_ASSET_ID (run cs p)).
Proof.
  intros Hid. revert p. induction cs as [|c cs IH]; intros p Hin; [done|].
  cbn. apply IH. destruct (decide (c = Unload id)) as [->|Hc].
  - cbn [exec]. by rewrite unload_invalid.
  - by apply exec_registered.
Qed.

(** X13. preload does not check its identifier, and what it registers under
    a value that is not a non-empty string stays for good: whatever calls and
    media events follow, the value remains registered, because unload, like
    play and stop, rejects the value before it looks at the registry. *)
Theorem invalid_identifier_never_unloaded (cs : list Call) (p : Plugin) (id : Value) :
  is_identifier id = false →
  is_Some (AUDIO_ASSET_BY_ASSET_ID p !! id) →
  is_Some (AUDIO_ASSET_BY_ASSET_ID (run cs p) !! id) ∧
  ∃ e, (e = NoAssetIdProvided ∨ e = AssetIdNotString) ∧
       NativeAudioWeb.unload id (run cs p) = (Throw e, run cs p) ∧
       NativeAudioWeb.stop id (run cs p) = (Throw e, run cs p) ∧
       ∀ t, NativeAudioWeb.play id t (run cs p) = (Throw e, run cs p).
Proof.
  intros Hid Hreg. split.
  - apply elem_of_dom, run_invalid_registered; [done|]. by apply elem_of_dom.
  - pose proof (getAudioAsset_invalid (run cs p) id Hid) as Hget.
    destruct (lookup_throw _ _ _ Hget) as (Hplay & _ & _ & _ & Hstop & Hunload & _).
    eexists. split; [|by repeat split].
    destruct (String.eqb (typeof id) "string"); auto.
Qed.

Lemma invalid_identifier_never_unloaded_witness :
  is_identifier (VString "") = false ∧
  is_Some (AUDIO_ASSET_BY_ASSET_ID loaded_empty !! VString "") ∧
  is_Some (AUDIO_ASSET_BY_ASSET_ID
             (run [Unload (VString ""); Stop (VString "")] loaded_empty) !! VString "").
Proof.
  assert (H : is_Some (AUDIO_ASSET_BY_ASSET_ID loaded_empty !! VString ""))
    by (eexists; reflexivity).
  split; [reflexivity|]. split; [exact H|].
  apply (invalid_identifier_never_unloaded
           [Unload (VString ""); Stop (VString "")] loaded_empty (VString "") eq_refl H).
Defined.

(** ** The listeners of a registered element *)

Global Instance own_kept_refl : Reflexive own_kept.
Proof. intros p H. exact H. Qed.
Global Instance own_kept_trans : Transitive own_kept.
Proof. unfold own_kept. intros p1 p2 p3 H1 H2 H. auto. Qed.

Lemma own_kept_on_audio (id : Value)
    (f : Audio.HTMLAudioElement → Outcome Audio.HTMLAudioElement) :
  (∀ a a', f a = Return a' →
     ∀ l, l ∈ Audio.ended_listeners a' →
       l ∈ Audio.ended_listeners a ∨ l = completion_listener id) →
  always own_kept (on_audio id f).
Proof.
  intros Hf p Hown. unfold on_audio.
  destruct (AUDIO_ASSET_BY_ASSET_ID p !! id) as [asset|] eqn:Hreg; [|done].
  destruct (f (audio asset)) as [a'|e] eqn:Hfa; [|done]. cbn.
  intros id0 asset0 Hreg0 l Hl. cbn in Hreg0.
  destruct (decide (id = id0)) as [<-|Hne].
  - rewrite lookup_insert_eq in Hreg0. injection Hreg0 as <-. cbn in Hl.
    destruct (Hf _ _ Hfa l Hl) as [Hold | ->]; [|done]. by apply (Hown id asset).
  - rewrite lookup_insert_ne in Hreg0 by done. by apply (Hown id0 asset0).
Qed.

Lemma own_kept_same_registry {A : Type} (m : M A) :
  (∀ p, AUDIO_ASSET_BY_ASSET_ID (snd (m p)) = AUDIO_ASSET_BY_ASSET_ID p) →
  always own_kept m.
Proof. intros Hm p Hown id asset Hreg. rewrite Hm in Hreg. by apply Hown. Qed.

Lemma dispatch_registry (ls : list Audio.Listener) (p : Plugin) :
  AUDIO_ASSET_BY_ASSET_ID (snd (Media.dispatch ls p)) = AUDIO_ASSET_BY_ASSET_ID p.
Proof. by rewrite dispatch_notified. Qed.

(** The statements of the methods, by what they do to the listeners. *)
Ltac listeners_kept :=
  apply own_kept_on_audio; intros ? ? ? ? ?;
  unfold Audio.set_currentTime, Audio.set_volume, Audio.set_playbackRate,
    Audio.to_double, mbind, Outcome_bind in *;
  repeat case_match; simplify_eq;
  match goal with
  | H : _ ∈ Audio.ended_listeners _ |- _ =>
      cbn in H;
      first [ left; exact H
            | apply elem_of_app in H as [H|H];
              [left; exact H | right; by apply list_elem_of_singleton in H]
            | apply list_elem_of_filter in H as [_ H]; left; exact H ]
  end.

Lemma exec_own_kept (c : Call) (p : Plugin) :
  listeners_own p → listeners_own (exec c p).
Proof.
  change (own_kept p (exec c p)).
  assert (Hrun : ∀ A (m : M A), always own_kept m → own_kept p (snd (m p)))
    by (intros A m Hm; apply Hm).
  destruct c; cbn [exec];
    try (apply Hrun; by apply always_isPreloaded; apply _).
  all: try (apply Hrun; unfold_methods;
            by repeat always_step ltac:(first
                 [ listeners_kept
                 | apply own_kept_same_registry; apply dispatch_registry ])).
  - (* preload *)
    intros Hown.
    destruct (preload_registry options p) as [->|(a & -> & Hls)]; [done|].
    intros id asset Hreg l Hl.
    destruct (decide (assetId options = id)) as [<-|Hne].
    + rewrite lookup_store_eq in Hreg. injection Hreg as <-. cbn in Hl.
      rewrite Hls in Hl. by apply elem_of_nil in Hl.
    + rewrite lookup_store_ne in Hreg by done. by apply (Hown id asset).
  - (* unload *)
    apply Hrun. unfold NativeAudioWeb.unload.
    apply always_bind; [apply _| |intros _].
    + unfold_methods. by repeat always_step ltac:(listeners_kept).
    + intros p0 Hown id asset Hreg.
      unfold mbind, M_bind, registry, set_registry in Hreg. cbn in Hreg.
      apply lookup_delete_Some in Hreg as [_ Hreg]. by apply (Hown id asset).
Qed.

Lemma run_own_kept (cs : list Call) (p : Plugin) :
  listeners_own p → listeners_own (run cs p).
Proof.
  revert p. induction cs as [|c cs IH]; intros p Hown; [done|].
  cbn. apply IH. by apply exec_own_kept.
Qed.

Lemma initial_listeners_own : listeners_own initial.
Proof. intros id asset Hreg. cbn in Hreg. by rewrite lookup_empty in Hreg. Qed.

Lemma ended_notified (id : Value) (p : Plugin) (n : string * Value) :
  listeners_own p →
  n ∈ notified (snd (Media.ended id p)) →
  n ∈ notified p ∨ n = ("complete", id).
Proof.
  intros Hown. unfold Media.ended, mbind, M_bind, registry.
  destruct (AUDIO_ASSET_BY_ASSET_ID p !! id) as [asset|] eqn:Hreg; [|by left].
  destruct (Audio.paused (audio asset) || Audio.loop (audio asset)); [by left|].
  rewrite (on_audio_found id asset p _ Hreg), dispatch_notified. cbn.
  intros [Hn|Hn]%elem_of_app; [by left|]. right.
  apply list_elem_of_fmap in Hn as (l & -> & Hl).
  by rewrite (Hown id asset Hreg l Hl).
Qed.

Lemma run_notified (cs : list Call) (p : Plugin) (n : string * Value) :
  listeners_own p →
  n ∈ notified (run cs p) →
  n ∈ notified p ∨ ∃ id, n = ("complete", id) ∧ Ended id ∈ cs.
Proof.
  revert p. induction cs as [|c cs IH]; intros p Hown Hn; [by left|].
  cbn in Hn. destruct (IH _ (exec_own_kept c p Hown) Hn) as [Hc|(id & -> & Hin)].
  - assert (Hcase : (∃ id, c = Ended id) ∨ (∀ id, c ≠ Ended id))
      by (destruct c; first [by left; eexists | by right]).
    destruct Hcase as [[id ->]|Hne].
    + destruct (ended_notified id p n Hown Hc) as [Hold | ->]; [by left|].
      right. exists id. split; [done|]. by left.
    + left. by rewrite <- (exec_same_notified c p).
  - right. exists id. split; [done|]. by right.
Qed.

(** X14. Over every history of calls and media events that starts from the
    empty plugin, each notification is a 'complete' event, and the identifier
    it carries is that of an asset whose element has fired 'ended' in the
    history: a completion is never reported for another asset, and never
    without the media having ended. *)
Theorem notifications_are_completions (cs : list Call) (n : string * Value) :
  n ∈ notified (run cs initial) →
  ∃ id, n = ("complete", id) ∧ Ended id ∈ cs.
Proof.
  intros Hn.
  destruct (run_notified cs initial n initial_listeners_own Hn) as [Hin|H]; [|done].
  by apply elem_of_nil in Hin.
Qed.

Lemma notifications_are_completions_witness :
  ("complete", VString "a")
    ∈ notified (run [Preload asset_a; Play (VString "a") None; Ended (VString "a")] initial) ∧
  ∃ id, ("complete", VString "a") = ("complete", id) ∧
        Ended id ∈ [Preload asset_a; Play (VString "a") None; Ended (VString "a")].
Proof.
  assert (H : ("complete", VString "a")
    ∈ notified (run [Preload asset_a; Play (VString "a") None; Ended (VString "a")] initial))
    by (apply (bool_decide_unpack _); vm_compute; exact I).
  split; [exact H|].
  exact (notifications_are_completions _ _ H).
Defined.

(** ** How many completions are notified *)

Lemma run_app (cs1 cs2 : list Call) (p : Plugin) :
  run (cs1 ++ cs2)%list p = run cs2 (run cs1 p).
Proof. apply foldl_app. Qed.

Lemma plays_store (id : Value) (times : list (option Qc))
    (a0 : Audio.HTMLAudioElement) (p : Plugin) :
  is_identifier id = true →
  ∃ a',
    run (plays id times) (store id a0 p) = store id a' p ∧
    Audio.ended_listeners a'
      = (Audio.ended_listeners a0
         ++ replicate (length times) (completion_listener id))%list ∧
    (times ≠ [] → Audio.paused a' = false ∧ Audio.loop a' = false).
Proof.
  intros Hid. revert a0. induction times as [|t times IH]; intros a0.
  - exists a0. cbn. by rewrite app_nil_r.
  - cbn [plays map run foldl exec].
    rewrite (play_found id _ _ t Hid (lookup_store_eq _ _ _)). cbn [snd audio].
    rewrite store_store.
    destruct (IH (restarted id (default 0%Qc t) a0)) as (a' & Hrun & Hls & Hstate).
    exists a'. split; [exact Hrun|]. split.
    + rewrite Hls. cbn. by rewrite <- app_assoc.
    + intros _. destruct times as [|t' times'].
      * cbn in Hrun. unfold store in Hrun.
        assert (a' = restarted id (default 0%Qc t) a0) as ->; [|done].
        apply (f_equal (fun q => AUDIO_ASSET_BY_ASSET_ID q !! id)) in Hrun.
        cbn in Hrun. rewrite !lookup_insert_eq in Hrun. congruence.
      * by apply Hstate.
Qed.

(** X15. One natural completion notifies once for every play since the last
    completion: after one or more calls of play on a registered asset, with
    nothing else in between, the 'ended' event of the element notifies
    'complete' for the asset as many times as play was called (after the
    notifications of the listeners the element carried before). *)
Theorem completion_notifies_once_per_play
    (p : Plugin) (id : Value) (asset : AudioAsset) (times : list (option Qc)) :
  is_identifier id = true →
  AUDIO_ASSET_BY_ASSET_ID p !! id = Some asset →
  times ≠ [] →
  notified (run (plays id times ++ [Ended id]) p)
    = (notified p
       ++ map (fun l => ("complete", Audio.captured l))
            (Audio.ended_listeners (audio asset))
       ++ replicate (length times) ("complete", id))%list.
Proof.
  intros Hid Hreg Htimes. rewrite run_app.
  rewrite <- (store_same id asset p Hreg) at 1.
  destruct (plays_store id times (audio asset) p Hid) as (a' & -> & Hls & Hstate).
  destruct (Hstate Htimes) as [Hpaused Hloop].
  cbn [run foldl exec].
  rewrite (ended_notifies_every_listener id _ _ (lookup_store_eq _ _ _)) by done.
  cbn. rewrite Hls, map_app. f_equal. f_equal.
  generalize (length times). intros k. induction k as [|k IH]; [done|].
  cbn. by rewrite IH.
Qed.

Lemma completion_notifies_once_per_play_witness :
  is_identifier (VString "a") = true ∧
  AUDIO_ASSET_BY_ASSET_ID loaded_a !! VString "a" = Some {| audio := prepared "x.mp3" |} ∧
  notified (run [Play (VString "a") None; Play (VString "a") (Some (Finite (Q2Qc 3)));
                 Play (VString "a") None; Ended (VString "a")] loaded_a)
    = [("complete", VString "a"); ("complete", VString "a"); ("complete", VString "a")].
Proof.
  split; [reflexivity|]. split; [reflexivity|].
  apply (completion_notifies_once_per_play loaded_a (VString "a")
           {| audio := prepared "x.mp3" |} [None; Some (Q2Qc 3); None]);
    [reflexivity | reflexivity | discriminate].
Defined.

(** X16. A completion uses its listeners up: when playback started by play
    has ended on an asset that carried only once-listeners, the element is
    paused and has no listener left, so the next play followed by its natural
    completion notifies 'complete' exactly once. *)
Theorem completion_clears_listeners
    (p : Plugin) (id : Value) (asset : AudioAsset) (t1 t2 : option Qc) :
  is_identifier id = true →
  AUDIO_ASSET_BY_ASSET_ID p !! id = Some asset →
  (∀ l, l ∈ Audio.ended_listeners (audio asset) → Audio.once l = true) →
  ∃ a1,
    AUDIO_ASSET_BY_ASSET_ID (run [Play id (Finite <$> t1); Ended id] p) !! id
      = Some {| audio := a1 |} ∧
    Audio.paused a1 = true ∧
    Audio.ended_listeners a1 = [] ∧
    notified (run [Play id (Finite <$> t1); Ended id;
                   Play id (Finite <$> t2); Ended id] p)
      = (notified (run [Play id (Finite <$> t1); Ended id] p)
         ++ [("complete", id)])%list.
Proof.
  intros Hid Hreg Honce.
  change [Play id (Finite <$> t1); Ended id; Play id (Finite <$> t2); Ended id]
    with ([Play id (Finite <$> t1); Ended id]
          ++ [Play id (Finite <$> t2); Ended id])%list.
  rewrite run_app.
  set (p1 := run [Play id (Finite <$> t1); Ended id] p).
  assert (Hp1 : ∃ a1, AUDIO_ASSET_BY_ASSET_ID p1 !! id = Some {| audio := a1 |} ∧
                      Audio.paused a1 = true ∧ Audio.ended_listeners a1 = []).
  { unfold p1. cbn [run foldl exec].
    rewrite (play_found id asset p t1 Hid Hreg). cbn [snd].
    rewrite (ended_found id _ _ (lookup_store_eq _ _ _)) by done.
    eexists. split; [cbn; apply lookup_insert_eq|]. split; [done|].
    cbn. rewrite filter_app. cbn.
    rewrite decide_False by done. rewrite app_nil_r.
    induction (Audio.ended_listeners (audio asset)) as [|l ls IH]; [done|].
    rewrite filter_cons, decide_False.
    - apply IH. intros l' Hl'. apply Honce. by right.
    - rewrite (Honce l) by by left. done. }
  destruct Hp1 as (a1 & Hreg1 & Hpaused1 & Hls1).
  exists a1. split; [done|]. split; [done|]. split; [done|].
  cbn [run foldl exec].
  rewrite (play_found id _ p1 t2 Hid Hreg1). cbn [snd].
  rewrite (ended_notifies_every_listener id _ _ (lookup_store_eq _ _ _)) by done.
  cbn. by rewrite Hls1.
Qed.

Lemma completion_clears_listeners_witness :
  is_identifier (VString "a") = true ∧
  AUDIO_ASSET_BY_ASSET_ID loaded_a !! VString "a" = Some {| audio := prepared "x.mp3" |} ∧
  ∃ a1,
    AUDIO_ASSET_BY_ASSET_ID
      (run [Play (VString "a") None; Ended (VString "a")] loaded_a) !! VString "a"
      = Some {| audio := a1 |} ∧
    Audio.ended_listeners a1 = [].
Proof.
  split; [reflexivity|]. split; [reflexivity|].
  destruct (completion_clears_listeners loaded_a (VString "a")
              {| audio := prepared "x.mp3" |} None None eq_refl eq_refl)
    as (a1 & Hreg & _ & Hls & _).
  - intros l Hl. by apply elem_of_nil in Hl.
  - exists a1. split; assumption.
Defined.

(** * Properties of [configureAndroid] *)

Section GradleProperties.
Import ConfigureDependencies.

(** ** Splitting and joining lines *)

Lemma split_nonempty (s : list N) : split s ≠ [].
Proof.
  destruct s as [|c s]; [done|]. cbn.
  case_bool_decide; [done|]. by destruct (split s).
Qed.

Lemma split_app_LF (a b : list N) :
  split (a ++ LF :: b) = (split a ++ split b)%list.
Proof.
  induction a as [|c a IH].
  - reflexivity.
  - cbn [split app]. case_bool_decide; [by rewrite IH|].
    rewrite IH. pose proof (split_nonempty a). by destruct (split a).
Qed.

Lemma split_line (line : list N) : LF ∉ line → split line = [line].
Proof.
  induction line as [|c line IH]; [done|].
  intros Hnot. cbn. rewrite bool_decide_eq_false_2.
  - rewrite IH; [done|]. intros H. apply Hnot. by right.
  - intros ->. apply Hnot. by left.
Qed.

Lemma split_no_LF (s : list N) : Forall (fun line => LF ∉ line) (split s).
Proof.
  induction s as [|c s IH].
  - constructor; [|constructor]. apply not_elem_of_nil.
  - cbn. case_bool_decide as Hc.
    + constructor; [apply not_elem_of_nil|done].
    + pose proof (split_nonempty s). destruct (split s) as [|line lines]; [done|].
      inversion_clear IH as [|? ? Hline Hlines]. constructor; [|done].
      intros [Heq|Hin]%elem_of_cons; [by apply Hc|]. by apply Hline.
Qed.

Lemma split_join (lines : list (list N)) :
  lines ≠ [] →
  Forall (fun line => LF ∉ line) lines →
  split (join lines) = lines.
Proof.
  induction lines as [|line lines IH]; [done|].
  intros _ Hall. inversion_clear Hall as [|? ? Hline Hlines].
  destruct lines as [|line' lines].
  - cbn. by apply split_line.
  - change (join (line :: line' :: lines))
      with (line ++ LF :: join (line' :: lines))%list.
    rewrite split_app_LF, split_line by done. cbn [app]. f_equal. by apply IH.
Qed.

(** ** The loop over the lines *)

Lemma loop_body_cases (st : Loop) (line : list N) :
  (filteredLines (loop_body st line) = filteredLines st
   ∧ lastWasEmpty (loop_body st line) = lastWasEmpty st
   ∧ is_user_line line = false)
  ∨ (filteredLines (loop_body st line) = (filteredLines st ++ [line])%list
     ∧ lastWasEmpty (loop_body st line) = is_empty_line line
     ∧ inNativeAudioSection (loop_body st line) = false
     ∧ is_NativeAudio_line line = false
     ∧ (is_empty_line line = true → lastWasEmpty st = false)).
Proof.
  unfold loop_body, is_user_line.
  destruct (is_NativeAudio_line line); [by left|].
  destruct (inNativeAudioSection st), (is_empty_line line) eqn:He,
    (lastWasEmpty st) eqn:Hl; cbn; rewrite ?He, ?Hl; cbn; auto 10.
Qed.

Lemma loop_user_lines (lines : list (list N)) (st : Loop) :
  List.filter is_user_line (filteredLines (fold_left loop_body lines st))
    = (List.filter is_user_line (filteredLines st)
       ++ List.filter is_user_line lines)%list.
Proof.
  revert st. induction lines as [|line lines IH]; intros st.
  - cbn. by rewrite app_nil_r.
  - cbn [fold_left]. rewrite IH.
    change (line :: lines) with ([line] ++ lines)%list.
    rewrite (List.filter_app _ [line] lines), app_assoc. f_equal.
    destruct (loop_body_cases st line) as [(-> & _ & Huser)|(-> & _)].
    + cbn. by rewrite Huser, app_nil_r.
    + by rewrite List.filter_app.
Qed.

Lemma loop_no_NativeAudio_line (lines : list (list N)) (st : Loop) :
  Forall (fun line => is_NativeAudio_line line = false) (filteredLines st) →
  Forall (fun line => is_NativeAudio_line line = false)
    (filteredLines (fold_left loop_body lines st)).
Proof.
  revert st. induction lines as [|line lines IH]; intros st Hst; [done|].
  cbn [fold_left]. apply IH.
  destruct (loop_body_cases st line) as [(-> & _)|(-> & _ & _ & HNA & _)]; [done|].
  apply Forall_app. split; [done|]. by constructor.
Qed.

Lemma loop_lines_from (lines : list (list N)) (st : Loop) (P : list N → Prop) :
  Forall P (filteredLines st) → Forall P lines →
  Forall P (filteredLines (fold_left loop_body lines st)).
Proof.
  revert st. induction lines as [|line lines IH]; intros st Hst Hlines; [done|].
  inversion_clear Hlines as [|? ? Hline Hrest].
  cbn [fold_left]. apply IH; [|done].
  destruct (loop_body_cases st line) as [(-> & _)|(-> & _)]; [done|].
  apply Forall_app. split; [done|]. by constructor.
Qed.

(** Running the loop again over the lines it kept keeps them all. *)
Lemma loop_second_pass (lines : list (list N)) (st : Loop) :
  fold_left loop_body (filteredLines st) loop_start
    = {| filteredLines := filteredLines st; inNativeAudioSection := false;
         lastWasEmpty := lastWasEmpty st |} →
  fold_left loop_body (filteredLines (fold_left loop_body lines st)) loop_start
    = {| filteredLines := filteredLines (fold_left loop_body lines st);
         inNativeAudioSection := false;
         lastWasEmpty := lastWasEmpty (fold_left loop_body lines st) |}.
Proof.
  revert st. induction lines as [|line lines IH]; intros st Hst; [done|].
  cbn [fold_left]. apply IH.
  destruct (loop_body_cases st line)
    as [(-> & -> & _)|(-> & -> & _ & HNA & Hempty)]; [done|].
  rewrite fold_left_app, Hst. cbn [fold_left]. unfold loop_body.
  rewrite HNA. cbn.
  destruct (is_empty_line line) eqn:He; [|done].
  by rewrite (Hempty eq_refl).
Qed.

Lemma loop_kept_again (lines : list (list N)) :
  loop (filteredLines (loop lines))
    = {| filteredLines := filteredLines (loop lines); inNativeAudioSection := false;
         lastWasEmpty := lastWasEmpty (loop lines) |}.
Proof. by apply loop_second_pass. Qed.

(** ** The lines of the written file *)

Lemma generated_lines (config : NativeAudioConfig) :
  split (join (nativeAudioProperties config) ++ [LF])
    = (nativeAudioProperties config ++ [[]])%list.
Proof. destruct config as [[]]; reflexivity. Qed.

Lemma configureAndroid_lines (config : NativeAudioConfig) (file : option (list N)) :
  split (configureAndroid config file)
    = (split (join (filteredLines (loop (split (default [] file)))))
       ++ nativeAudioProperties config ++ [[]])%list.
Proof.
  unfold configureAndroid. cbv zeta.
  change ([LF] ++ ?x)%list with (LF :: x).
  by rewrite split_app_LF, generated_lines.
Qed.

Lemma kept_no_LF (s : list N) :
  Forall (fun line => LF ∉ line) (filteredLines (loop (split s))).
Proof. apply loop_lines_from; [constructor|apply split_no_LF]. Qed.

Lemma filter_none {A : Type} (f : A → bool) (l : list A) :
  Forall (fun x => f x = false) l → List.filter f l = [].
Proof.
  induction 1 as [|x l Hx _ IH]; [done|]. cbn. by rewrite Hx.
Qed.

(** The lines of the joined kept lines are the kept lines, or one empty line
    when nothing was kept. *)
Lemma split_join_kept (s : list N) :
  split (join (filteredLines (loop (split s))))
    = match filteredLines (loop (split s)) with
      | [] => [[]]
      | kept => kept
      end.
Proof.
  pose proof (kept_no_LF s) as Hno.
  destruct (filteredLines (loop (split s))) as [|line kept] eqn:E; [done|].
  by apply split_join.
Qed.

(** X17. configureAndroid keeps the lines of the user: the lines of the file
    it writes that are neither empty nor NativeAudio lines are exactly those
    of the file it read, in the same order (none when there was no file). *)
Theorem configureAndroid_keeps_user_lines
    (config : NativeAudioConfig) (file : option (list N)) :
  List.filter is_user_line (split (configureAndroid config file))
    = List.filter is_user_line (split (default [] file)).
Proof.
  rewrite configureAndroid_lines, List.filter_app.
  replace (List.filter is_user_line (nativeAudioProperties config ++ [[]]))
    with (@nil (list N)) by (by destruct config as [[]]).
  rewrite app_nil_r, split_join_kept.
  pose proof (loop_user_lines (split (default [] file)) loop_start) as Huser.
  cbn [filteredLines loop_start List.filter app] in Huser. fold (loop (split (default [] file))) in Huser.
  rewrite <- Huser.
  by destruct (filteredLines (loop (split (default [] file)))).
Qed.

(** X18. The file configureAndroid writes has exactly one generated section:
    its NativeAudio lines are the two generated comments and one
    nativeAudio.hls.include line, which says true or false as the
    configuration does, whatever NativeAudio lines the file had before. *)
Theorem configureAndroid_one_generated_section
    (config : NativeAudioConfig) (file : option (list N)) :
  List.filter is_NativeAudio_line (split (configureAndroid config file))
    = [ lit "# NativeAudio Optional Dependencies (auto-generated)";
        lit "# Generated by NativeAudio hook script";
        (lit "nativeAudio.hls.include="
         ++ lit (if hls config then "true" else "false"))%list ].
Proof.
  rewrite configureAndroid_lines, List.filter_app, split_join_kept.
  replace (List.filter is_NativeAudio_line (nativeAudioProperties config ++ [[]]))
    with [ lit "# NativeAudio Optional Dependencies (auto-generated)";
           lit "# Generated by NativeAudio hook script";
           (lit "nativeAudio.hls.include="
            ++ lit (if hls config then "true" else "false"))%list ]
    by (by destruct config as [[]]).
  pose proof (loop_no_NativeAudio_line (split (default [] file)) loop_start
                (Forall_nil_2 _)) as Hnone.
  fold (loop (split (default [] file))) in Hnone.
  destruct (filteredLines (loop (split (default [] file)))) as [|line kept];
    [done|].
  by rewrite (filter_none _ _ Hnone).
Qed.

(** ** Running the hook again *)

Lemma rerun_lines (config : NativeAudioConfig) (kept : list (list N)) (lwe : bool) :
  kept ≠ [] →
  Forall (fun line => LF ∉ line) kept →
  loop kept = {| filteredLines := kept; inNativeAudioSection := false;
                 lastWasEmpty := lwe |} →
  loop (split (join kept ++ [LF] ++ join (nativeAudioProperties config) ++ [LF]))
    = {| filteredLines := if lwe then kept else (kept ++ [[]])%list;
         inNativeAudioSection := true; lastWasEmpty := true |}.
Proof.
  intros Hne Hno Hloop.
  change ([LF] ++ ?x)%list with (LF :: x).
  rewrite split_app_LF, generated_lines, split_join by done.
  unfold loop in *. rewrite fold_left_app, Hloop.
  by destruct lwe, config as [[]].
Qed.

(** What the loop keeps of a file the hook has written: lines that the loop
    keeps unchanged, the last of them empty. *)
Lemma written_file_kept (config : NativeAudioConfig) (file : option (list N)) :
  let kept := filteredLines (loop (split (configureAndroid config file))) in
  kept ≠ [] ∧
  Forall (fun line => LF ∉ line) kept ∧
  loop kept = {| filteredLines := kept; inNativeAudioSection := false;
                 lastWasEmpty := true |}.
Proof.
  cbv zeta. unfold configureAndroid. cbv zeta.
  pose proof (kept_no_LF (default [] file)) as Hno.
  pose proof (loop_kept_again (split (default [] file))) as Hagain.
  destruct (filteredLines (loop (split (default [] file)))) as [|line kept1] eqn:E.
  - change (join []) with (join [[]]).
    rewrite (rerun_lines config [[]] true); [|done|repeat constructor; apply not_elem_of_nil|done].
    split; [done|]. split; [|done]. repeat constructor. apply not_elem_of_nil.
  - rewrite (rerun_lines config (line :: kept1) _ (ltac:(done)) Hno Hagain).
    cbn [filteredLines].
    destruct (lastWasEmpty (loop (split (default [] file)))) eqn:Hl;
      rewrite ?Hl in Hagain.
    + split; [done|]. split; [done|]. by rewrite Hagain.
    + split; [by destruct kept1|]. split.
      * apply Forall_app. split; [done|]. repeat constructor. apply not_elem_of_nil.
      * unfold loop in *. by rewrite fold_left_app, Hagain.
Qed.

Lemma configureAndroid_Some (config : NativeAudioConfig) (content : list N) :
  configureAndroid config (Some content)
    = (join (filteredLines (loop (split content))) ++ [LF]
       ++ join (nativeAudioProperties config) ++ [LF])%list.
Proof. reflexivity. Qed.

Lemma rerun_written (c1 c2 : NativeAudioConfig) (file : option (list N)) :
  filteredLines (loop (split (configureAndroid c2 (Some (configureAndroid c1 file)))))
    = filteredLines (loop (split (configureAndroid c1 file))).
Proof.
  destruct (written_file_kept c1 file) as (Hne & Hno & Hloop).
  rewrite configureAndroid_Some.
  by rewrite (rerun_lines c2 _ true Hne Hno Hloop).
Qed.

(** X19. From its second run on the hook is stable: run on a file it has
    itself written and rewritten, configureAndroid writes what it would have
    written after the first rewrite.  With the same configuration a third run
    therefore leaves the file of the second run as it is. *)
Theorem configureAndroid_stable_from_second_run
    (c1 c2 c3 : NativeAudioConfig) (file : option (list N)) :
  configureAndroid c3 (Some (configureAndroid c2 (Some (configureAndroid c1 file))))
    = configureAndroid c3 (Some (configureAndroid c1 file)).
Proof.
  rewrite (configureAndroid_Some c3 (configureAndroid c2 _)),
    (configureAndroid_Some c3 (configureAndroid c1 file)).
  by rewrite rerun_written.
Qed.

(** X20. A rerun forgets the earlier configuration: the file written over a
    file of the hook depends on the new configuration only, not on the one
    the previous run was given. *)
Theorem configureAndroid_forgets_previous_config
    (c c1 c2 : NativeAudioConfig) (file : option (list N)) :
  configureAndroid c (Some (configureAndroid c1 file))
    = configureAndroid c (Some (configureAndroid c2 file)).
Proof.
  assert (Hkept : ∀ c0, filteredLines (loop (split (configureAndroid c0 file)))
            = match filteredLines (loop (split (default [] file))) with
              | [] => [[]]
              | kept =>
                  if lastWasEmpty (loop (split (default [] file))) then kept
                  else (kept ++ [[]])%list
              end).
  { intros c0. unfold configureAndroid. cbv zeta.
    pose proof (kept_no_LF (default [] file)) as Hno.
    pose proof (loop_kept_again (split (default [] file))) as Hagain.
    destruct (filteredLines (loop (split (default [] file)))) as [|line kept1] eqn:E.
    - change (join []) with (join [[]]).
      by rewrite (rerun_lines c0 [[]] true);
        [|done|repeat constructor; apply not_elem_of_nil|done].
    - by rewrite (rerun_lines c0 (line :: kept1) _ (ltac:(done)) Hno Hagain). }
  rewrite (configureAndroid_Some c (configureAndroid c1 file)),
    (configureAndroid_Some c (configureAndroid c2 file)).
  by rewrite !Hkept.
Qed.

End GradleProperties.

(** * Further properties of the plugin, continued *)

(** ** Values that are no identifiers *)

(** X21. Every method that takes an identifier, except preload and
    isPreloaded, rejects a value that is not a non-empty string before it
    looks at the registry: with 'no assetId provided' for the empty string,
    with 'assetId must be a string' for any other value, whether or not an
    asset is registered under the value, and without changing anything. *)
Theorem invalid_identifier_rejected (p : Plugin) (id : Value) :
  is_identifier id = false →
  ∃ e,
    e = (if String.eqb (typeof id) "string" then NoAssetIdProvided
         else AssetIdNotString) ∧
    (∀ t, NativeAudioWeb.play id t p = (Throw e, p)) ∧
    NativeAudioWeb.loop id p = (Throw e, p) ∧
    NativeAudioWeb.pause id p = (Throw e, p) ∧
    NativeAudioWeb.resume id p = (Throw e, p) ∧
    NativeAudioWeb.stop id p = (Throw e, p) ∧
    NativeAudioWeb.unload id p = (Throw e, p) ∧
    (∀ t, NativeAudioWeb.setCurrentTime id t p = (Throw e, p)) ∧
    NativeAudioWeb.getCurrentTime id p = (Throw e, p) ∧
    NativeAudioWeb.getDuration id p = (Throw e, p) ∧
    (∀ n, NativeAudioWeb.setVolume id (VNumber n) p = (Throw e, p)) ∧
    (∀ n, NativeAudioWeb.setRate id (VNumber n) p = (Throw e, p)) ∧
    NativeAudioWeb.isPlaying id p = (Throw e, p).
Proof.
  intros Hid. eexists. split; [reflexivity|].
  apply lookup_throw. by apply getAudioAsset_invalid.
Qed.

Lemma invalid_identifier_rejected_witness :
  is_identifier (VNumber (Finite (Q2Qc 7))) = false ∧
  NativeAudioWeb.pause (VNumber (Finite (Q2Qc 7))) loaded_a
    = (Throw AssetIdNotString, loaded_a) ∧
  NativeAudioWeb.pause (VString "") loaded_empty = (Throw NoAssetIdProvided, loaded_empty).
Proof.
  split; [reflexivity|].
  destruct (invalid_identifier_rejected loaded_a (VNumber (Finite (Q2Qc 7))) eq_refl)
    as (e1 & -> & _ & _ & Hpause1 & _).
  destruct (invalid_identifier_rejected loaded_empty (VString "") eq_refl)
    as (e2 & -> & _ & _ & Hpause2 & _).
  split; assumption.
Defined.

(** ** loop and resume *)

(** X22. loop on a registered asset, whatever the state of its element,
    returns and leaves the element playing from position 0 with the loop flag
    on; it adds no listener, and the volume, the rate and the source are those
    from before. *)
Theorem loop_restarts_looping (p : Plugin) (id : Value) (asset : AudioAsset) :
  is_identifier id = true →
  AUDIO_ASSET_BY_ASSET_ID p !! id = Some asset →
  ∃ p' a',
    NativeAudioWeb.loop id p = (Return tt, p') ∧
    AUDIO_ASSET_BY_ASSET_ID p' !! id = Some {| audio := a' |} ∧
    Audio.paused a' = false ∧
    Audio.loop a' = true ∧
    Audio.currentTime a' = 0%Qc ∧
    Audio.ended_listeners a' = Audio.ended_listeners (audio asset) ∧
    Audio.volume a' = Audio.volume (audio asset) ∧
    Audio.playbackRate a' = Audio.playbackRate (audio asset) ∧
    Audio.src a' = Audio.src (audio asset) ∧
    notified p' = notified p.
Proof.
  intros Hid Hreg.
  exists (store id (Audio.play (Audio.set_loop true (stopped (audio asset)))) p),
         (Audio.play (Audio.set_loop true (stopped (audio asset)))).
  split; [by apply loop_found|]. split; [apply lookup_store_eq|]. by repeat split.
Qed.

Lemma loop_restarts_looping_witness :
  is_identifier (VString "a") = true ∧
  AUDIO_ASSET_BY_ASSET_ID loaded_two !! VString "a"
    = Some {| audio := restarted (VString "a") 0 (prepared "x.mp3") |} ∧
  ∃ p' a',
    NativeAudioWeb.loop (VString "a") loaded_two = (Return tt, p') ∧
    AUDIO_ASSET_BY_ASSET_ID p' !! VString "a" = Some {| audio := a' |} ∧
    Audio.loop a' = true ∧
    Audio.ended_listeners a' = [completion_listener (VString "a")].
Proof.
  split; [reflexivity|]. split; [reflexivity|].
  destruct (loop_restarts_looping loaded_two (VString "a")
              {| audio := restarted (VString "a") 0 (prepared "x.mp3") |}
              eq_refl eq_refl)
    as (p' & a' & Hloop & Hreg & _ & Hflag & _ & Hls & _).
  exists p', a'. repeat split; assumption.
Defined.

(** X23. resume does one thing to a registered asset, and only when its
    element is paused.  On an element that is already playing it returns and
    the plugin is exactly as before: audio.play() is not called.  On a paused
    element it calls audio.play(): the asset's element becomes the one that
    call leaves, every other asset and the notifications being as before;
    unlike play, resume does not stop or seek first, and the started element
    has the loop flag, the listeners, the volume and the rate it had.  In
    both cases isPlaying then answers true. *)
Theorem resume_only_starts_element (p : Plugin) (id : Value) (asset : AudioAsset) :
  is_identifier id = true →
  AUDIO_ASSET_BY_ASSET_ID p !! id = Some asset →
  (Audio.paused (audio asset) = false →
     NativeAudioWeb.resume id p = (Return tt, p)) ∧
  (Audio.paused (audio asset) = true →
     NativeAudioWeb.resume id p = (Return tt, store id (Audio.play (audio asset)) p) ∧
     Audio.loop (Audio.play (audio asset)) = Audio.loop (audio asset) ∧
     Audio.ended_listeners (Audio.play (audio asset))
       = Audio.ended_listeners (audio asset) ∧
     Audio.volume (Audio.play (audio asset)) = Audio.volume (audio asset) ∧
     Audio.playbackRate (Audio.play (audio asset))
       = Audio.playbackRate (audio asset)) ∧
  fst (NativeAudioWeb.isPlaying id (snd (NativeAudioWeb.resume id p))) = Return true.
Proof.
  intros Hid Hreg. rewrite (resume_found id asset p Hid Hreg).
  destruct (Audio.paused (audio asset)) eqn:Hpaused.
  - split; [done|]. split; [done|]. cbn [snd].
    by rewrite (isPlaying_found id _ _ Hid (lookup_store_eq id _ p)).
  - split; [done|]. split; [done|]. cbn [snd].
    by rewrite (isPlaying_found id _ _ Hid Hreg), Hpaused.
Qed.

Lemma resume_only_starts_element_witness :
  is_identifier (VString "a") = true ∧
  AUDIO_ASSET_BY_ASSET_ID loaded_a !! VString "a" = Some {| audio := prepared "x.mp3" |} ∧
  NativeAudioWeb.resume (VString "a") loaded_a
    = (Return tt, store (VString "a") (Audio.play (prepared "x.mp3")) loaded_a) ∧
  fst (NativeAudioWeb.isPlaying (VString "a")
         (snd (NativeAudioWeb.resume (VString "a") loaded_a))) = Return true.
Proof.
  split; [reflexivity|]. split; [reflexivity|].
  destruct (resume_only_starts_element loaded_a (VString "a")
              {| audio := prepared "x.mp3" |} eq_refl eq_refl)
    as (_ & Hpaused & Hplaying).
  split; [apply Hpaused; reflexivity|exact Hplaying].
Defined.
